(** * SDPAToPagedAttention: the orchestration of [run_on_model]

    A shallow embedding of
    [src/core/src/pass/sdpa_to_paged_attention.cpp] and the properties of
    its parameter synthesis, input adaptation, pass sequencing and final
    structural edit.

    Nodes live in a store indexed by handles (the [shared_ptr]s of the
    source); the model owns three lists of handles.  The function is a
    computation in a small state monad whose signals are the ways a C++
    statement can end: fall through, [return b], raise, or dereference a
    null pointer. *)

From Stdlib Require Import ZArith.
From stdpp Require Import base list strings.

Open Scope Z_scope.
Open Scope nat_scope.
Open Scope string_scope.
Open Scope list_scope.

(** ** Nodes and models *)

Inductive element_type : Type := i32 | i64 | f32 | boolean.

(** [PartialShape{-1}] is [[-1]]: a dimension of [-1] is dynamic;
    [PartialShape{}] is the scalar shape [[]]. *)
Definition PartialShape : Type := list Z.
Definition Shape : Type := list nat.

(** A handle to a node ([std::shared_ptr<Node>]); handles are compared by
    identity, as pointers are. *)
Definition node_ref : Type := nat.

Inductive op : Type :=
  | v0_Parameter (et : element_type) (pshape : PartialShape)
  | v0_Constant (et : element_type) (shape : Shape) (values : list Z)
  | v0_Unsqueeze
  | v3_ShapeOf
  | v8_Gather
  | v1_Subtract
  | v0_Convert (destination : element_type)
  | Opaque (type_name : string).

(** Every node of interest here has one output tensor ([setName] asserts it
    for the Parameters it names), so an input port holds the handle of the
    node that produces its value, and the tensor names sit on the node. *)
Record Node : Type := mkNode {
  node_op : op;
  node_inputs : list node_ref;
  friendly_name : string;
  tensor_names : list string
}.

(** Modelled from the spec: the Graph Model ([ov::Model]), whose code is not
    part of the source unit: "an ordered sequence of Parameters, an ordered
    sequence of Results, and a set of Sinks".  [nodes] is the store of all
    live nodes, attached to the model or not yet. *)
Record Model : Type := mkModel {
  nodes : list Node;
  m_parameters : list node_ref;
  m_results : list node_ref;
  m_sinks : list node_ref
}.

Definition with_nodes (m : Model) (ns : list Node) : Model :=
  mkModel ns (m_parameters m) (m_results m) (m_sinks m).
Definition with_parameters (m : Model) (ps : list node_ref) : Model :=
  mkModel (nodes m) ps (m_results m) (m_sinks m).
Definition with_results (m : Model) (rs : list node_ref) : Model :=
  mkModel (nodes m) (m_parameters m) rs (m_sinks m).
Definition with_sinks (m : Model) (ss : list node_ref) : Model :=
  mkModel (nodes m) (m_parameters m) (m_results m) ss.

(** No handle of the Parameter list dangles: a [shared_ptr] keeps its node
    alive. *)
Definition params_alive (m : Model) : Prop :=
  Forall (λ r, r < length (nodes m)) (m_parameters m).

(** ** Signals and the monad *)

Inductive signal (A : Type) : Type :=
  | Next (a : A)            (* control reaches the next statement *)
  | Returns (b : bool)      (* [return b;] *)
  | Throws (name : string)  (* the lookup of the input [name] raised *)
  | NullDeref.              (* [->] on a null [shared_ptr] *)
Arguments Next {A} a.
Arguments Returns {A} b.
Arguments Throws {A} name.
Arguments NullDeref {A}.

Definition M (A : Type) : Type := Model → signal A * Model.

Definition M_ret {A : Type} (a : A) : M A := λ m, (Next a, m).

Definition M_bind {A B : Type} (k : A → M B) (c : M A) : M B := λ m,
  match c m with
  | (Next a, m') => k a m'
  | (Returns b, m') => (Returns b, m')
  | (Throws w, m') => (Throws w, m')
  | (NullDeref, m') => (NullDeref, m')
  end.

#[global] Instance M_mret : MRet M := @M_ret.
#[global] Instance M_mbind : MBind M := @M_bind.

Definition return_ {A : Type} (b : bool) : M A := λ m, (Returns b, m).

(** A signal other than [Next] leaves through every statement that follows. *)
Definition escapes {A : Type} (s : signal A) : Prop :=
  match s with Next _ => False | _ => True end.

Definition cast_signal {A B : Type} (s : signal A) : signal B :=
  match s with
  | Next _ => NullDeref
  | Returns b => Returns b
  | Throws w => Throws w
  | NullDeref => NullDeref
  end.

(** ** The graph interface used by the pass

    The operations of [ov::Model] and [ov::Node] that [run_on_model] calls.
    Their code is outside the source unit; each is modelled from the words
    of the spec. *)

(** [t.get_names()] for the output [t] of the node [r]. *)
Definition get_names (m : Model) (r : node_ref) : list string :=
  from_option tensor_names [] (nodes m !! r).

Definition has_name (m : Model) (name : string) (r : node_ref) : bool :=
  bool_decide (name ∈ get_names m r).

(** Modelled from the spec: [model->inputs()], missing from the source unit;
    one port per entry of the Parameter list. *)
Definition inputs (m : Model) : list node_ref := m_parameters m.

(** Modelled from the spec: [model->input(name)], missing from the source
    unit; the input "bound to the name", the first one if several are. *)
Definition input (m : Model) (name : string) : option node_ref :=
  find (has_name m name) (inputs m).

(** Modelled from the spec: [model->input(name).get_node_shared_ptr()]; the
    lookup raises when no input carries the name (the source guards the
    optional names with [has_parameter] first). *)
Definition model_input (name : string) : M node_ref := λ m,
  match input m name with
  | Some o => (Next o, m)
  | None => (Throws name, m)
  end.

Definition is_Parameter (n : Node) : bool :=
  match node_op n with v0_Parameter _ _ => true | _ => false end.

(** [std::dynamic_pointer_cast<v0::Parameter>(p)]: [p] itself when it points
    to a Parameter, null otherwise. *)
Definition as_Parameter (m : Model) (r : node_ref) : option node_ref :=
  match nodes m !! r with
  | Some n => if is_Parameter n then Some r else None
  | None => None
  end.

Definition dynamic_pointer_cast_Parameter (r : node_ref) : M (option node_ref) :=
  λ m, (Next (as_Parameter m r), m).

(** [p->...]: dereferencing a possibly null pointer. *)
Definition arrow (p : option node_ref) : M node_ref := λ m,
  match p with
  | Some r => (Next r, m)
  | None => (NullDeref, m)
  end.

(** [std::make_shared<T>(...)]: a fresh node, attached to no model, with no
    tensor name and its friendly name left unset. *)
Definition make_shared (o : op) (ins : list node_ref) : M node_ref := λ m,
  (Next (length (nodes m)), with_nodes m (nodes m ++ [mkNode o ins "" []])).

(** [v0::Constant::create(et, shape, {v})]. *)
Definition Constant_create (et : element_type) (sh : Shape) (vs : list Z) : M node_ref :=
  make_shared (v0_Constant et sh vs) [].

Definition rename (name : string) (n : Node) : Node :=
  mkNode (node_op n) (node_inputs n) name [name].

(** [setName] (lines 20-27): the friendly name and the single tensor name.
    The assertion of line 24 holds for every node of this model. *)
Definition setName (node : node_ref) (name : string) : M node_ref := λ m,
  (Next node, with_nodes m (alter (rename name) node (nodes m))).

Definition reshape (ps : PartialShape) (n : Node) : Node :=
  match node_op n with
  | v0_Parameter et _ =>
      mkNode (v0_Parameter et ps) (node_inputs n) (friendly_name n) (tensor_names n)
  | _ => n
  end.

(** Modelled from the spec: [p->set_partial_shape(ps)] on a Parameter
    ("relaxes its shape"); the element type and the names stay. *)
Definition set_partial_shape (p : node_ref) (ps : PartialShape) : M unit := λ m,
  (Next tt, with_nodes m (alter (reshape ps) p (nodes m))).

Definition rewire (target replacement : node_ref) (n : Node) : Node :=
  mkNode (node_op n)
         ((λ i, if decide (i = target) then replacement else i) <$> node_inputs n)
         (friendly_name n) (tensor_names n).

(** Modelled from the spec: the store after a replacement.  Every node but
    [replacement] itself has its operands rewired. *)
Definition redirect (target replacement : node_ref) (ns : list Node) : list Node :=
  imap (λ j nd, if decide (j = replacement) then nd
                else rewire target replacement nd) ns.

(** Modelled from the spec: [replace_node(target, replacement)], missing
    from the source unit.  The spec has the new node inserted on the input
    (it "adds a trailing unit axis" to it) and has the call rewire "every
    consumer of the original input to instead consume the new node's
    output": every input port that read [target] reads [replacement]
    afterwards, except the ports of [replacement] itself, which goes on
    reading [target]. *)
Definition replace_node (target replacement : node_ref) : M unit := λ m,
  (Next tt, with_nodes m (redirect target replacement (nodes m))).

(** Modelled from the spec: [model->add_parameters(ps)], missing from the
    source unit; it appends to the Parameter list, in the order given. *)
Definition add_parameters (ps : list node_ref) : M unit := λ m,
  (Next tt, with_parameters m (m_parameters m ++ ps)).

(** Modelled from the spec: [model->remove_parameter(p)], missing from the
    source unit; it erases the handle from the Parameter list. *)
Definition remove_parameter (p : node_ref) : M unit := λ m,
  (Next tt, with_parameters m (filter (λ r, r ≠ p) (m_parameters m))).

(** Modelled from the spec: [model->get_sinks()], missing from the source
    unit; line 121 copies the Sinks of the model. *)
Definition get_sinks : M (list node_ref) := λ m, (Next (m_sinks m), m).

(** Modelled from the spec: [model->remove_sink(s)], missing from the source
    unit; it erases the handle from the Sinks. *)
Definition remove_sink (s : node_ref) : M unit := λ m,
  (Next tt, with_sinks m (filter (λ r, r ≠ s) (m_sinks m))).

(** Modelled from the spec: [model->remove_result(r)], missing from the
    source unit; it erases the handle from the Result list. *)
Definition remove_result (r0 : node_ref) : M unit := λ m,
  (Next tt, with_results m (filter (λ r, r ≠ r0) (m_results m))).

(** A range-[for] over a vector. *)
Fixpoint for_each {A : Type} (l : list A) (body : A → M unit) : M unit :=
  match l with
  | [] => mret tt
  | x :: l' => body x ≫= λ _, for_each l' body
  end.

(** ** The sub-passes

    The four rewrite passes are external collaborators.  The references the
    source hands to [StateManagementPattern] are the mutable context. *)

Record PassContext : Type := mkPassContext {
  kv_parameters : list node_ref;
  parameters_to_remove : list node_ref;
  assignes_to_remove : list node_ref;
  layer_index : Z
}.

Record SubPasses : Type := mkSubPasses {
  (* (model_remaining_params, sliding_window, max_context_len->output(0)) *)
  StateManagementPattern :
    list node_ref → node_ref → node_ref → PassContext → Model → PassContext * Model;
  (* (prev_max_seq_len) *)
  PrevSequenceLengthPattern : node_ref → Model → Model;
  (* (max_context_len) *)
  TotalSequenceLengthPattern : node_ref → Model → Model;
  (* (unsqueezed_position_ids->output(0)) *)
  PositionIDsReplacer : node_ref → Model → Model
}.

(** The locals of [run_on_model] that outlive the block that sets them. *)
Record Locals : Type := mkLocals {
  max_context_len : node_ref;
  model_remaining_params : list node_ref;
  sliding_window : node_ref;
  unsqueezed_input_ids : node_ref;
  prev_max_seq_len : node_ref;
  unsqueezed_position_ids : node_ref
}.

(** ** [run_on_model], block by block *)

(** [has_parameter] (lines 53-62). *)
Definition has_parameter (m : Model) (name : string) : bool :=
  existsb (λ t, bool_decide (name ∈ get_names m t)) (inputs m).

Definition has_parameter_ (name : string) : M bool := λ m,
  (Next (has_parameter m name), m).

(** [setName(std::make_shared<v0::Parameter>(et, ps), name)]. *)
Definition named_Parameter (et : element_type) (ps : PartialShape) (name : string)
  : M node_ref :=
  p ← make_shared (v0_Parameter et ps) []; setName p name.

(** Lines 31-38. *)
Definition synthesize : M (node_ref * list node_ref * node_ref) :=
  max_context_len ← named_Parameter i32 [] "max_context_len";
  context_lens ← named_Parameter i32 [(-1)%Z] "context_lens";
  subsequence_begins ← named_Parameter i32 [(-1)%Z] "subsequence_begins";
  block_indices ← named_Parameter i32 [(-1)%Z] "block_indices";
  block_indices_begins ← named_Parameter i32 [(-1)%Z] "block_indices_begins";
  sliding_window ← Constant_create i32 [] [0%Z];
  mret (max_context_len,
        [context_lens; subsequence_begins; block_indices; block_indices_begins],
        sliding_window).

(** Lines 40-45. *)
Definition adapt_input_ids : M node_ref :=
  o ← model_input "input_ids";
  input_ids_node ← dynamic_pointer_cast_Parameter o;
  p ← arrow input_ids_node;
  set_partial_shape p [(-1)%Z];;
  axis ← Constant_create i32 [] [1%Z];
  unsqueezed_input_ids ← make_shared v0_Unsqueeze [p; axis];
  replace_node p unsqueezed_input_ids;;
  mret unsqueezed_input_ids.

(** Lines 47-51, the operands of each constructor taken left to right. *)
Definition make_prev_max_seq_len (max_context_len unsqueezed_input_ids : node_ref)
  : M node_ref :=
  shape ← make_shared v3_ShapeOf [unsqueezed_input_ids];
  index ← Constant_create i64 [] [1%Z];
  axis ← Constant_create i64 [] [0%Z];
  cur_seq_len ← make_shared v8_Gather [shape; index; axis];
  converted ← make_shared (v0_Convert i32) [cur_seq_len];
  make_shared v1_Subtract [max_context_len; converted].

(** Lines 69-79. *)
Definition adapt_position_ids : M node_ref :=
  has ← has_parameter_ "position_ids";
  position_ids ←
    (if negb has then
       p ← named_Parameter i64 [(-1)%Z] "position_ids";
       add_parameters [p];;
       mret p
     else
       o ← model_input "position_ids";
       position_ids ← dynamic_pointer_cast_Parameter o;
       p ← arrow position_ids;
       set_partial_shape p [(-1)%Z];;
       mret p);
  axis ← Constant_create i32 [] [1%Z];
  unsqueezed_position_ids ← make_shared v0_Unsqueeze [position_ids; axis];
  replace_node position_ids unsqueezed_position_ids;;
  mret unsqueezed_position_ids.

(** Lines 31-79: everything before the pass manager. *)
Definition prologue : M Locals :=
  '(max_context_len, model_remaining_params, sliding_window) ← synthesize;
  unsqueezed_input_ids ← adapt_input_ids;
  prev_max_seq_len ← make_prev_max_seq_len max_context_len unsqueezed_input_ids;
  unsqueezed_position_ids ← adapt_position_ids;
  mret (mkLocals max_context_len model_remaining_params sliding_window
                 unsqueezed_input_ids prev_max_seq_len unsqueezed_position_ids).

(** Lines 99-106. *)
Definition remove_beam_idx : M unit :=
  has ← has_parameter_ "beam_idx";
  if (has : bool) then
    o ← model_input "beam_idx";
    parameter ← dynamic_pointer_cast_Parameter o;
    match parameter with
    | Some p => remove_parameter p
    | None => return_ false
    end
  else mret tt.

(** Lines 108-113. *)
Definition remove_attention_mask : M unit :=
  o ← model_input "attention_mask";
  parameter ← dynamic_pointer_cast_Parameter o;
  match parameter with
  | Some p => remove_parameter p
  | None => return_ false
  end.

(** Lines 115-134. *)
Definition finish (l : Locals) (ctx : PassContext) (results_to_remove : list node_ref)
  : M Empty_set :=
  for_each (parameters_to_remove ctx) remove_parameter;;
  sinks ← get_sinks;
  for_each sinks remove_sink;;
  for_each results_to_remove remove_result;;
  add_parameters (kv_parameters ctx);;
  add_parameters (model_remaining_params l);;
  add_parameters [max_context_len l];;
  return_ true.

Section SDPAToPagedAttention.

Variable sub : SubPasses.

(** Lines 64-67 and 81-97: the context starts empty, the manager runs the
    four passes in the order of registration. *)
Definition run_passes (l : Locals) : M PassContext := λ m,
  let ctx0 := mkPassContext [] [] [] 0%Z in
  let '(ctx, m1) :=
    StateManagementPattern sub (model_remaining_params l) (sliding_window l)
                           (max_context_len l) ctx0 m in
  let m2 := PrevSequenceLengthPattern sub (prev_max_seq_len l) m1 in
  let m3 := TotalSequenceLengthPattern sub (max_context_len l) m2 in
  let m4 := PositionIDsReplacer sub (unsqueezed_position_ids l) m3 in
  (Next ctx, m4).

(** The state in which control reaches line 99. *)
Definition upto_passes : M (Locals * PassContext) :=
  l ← prologue; ctx ← run_passes l; mret (l, ctx).

(** The state in which control reaches line 108. *)
Definition upto_beam_idx : M (Locals * PassContext) :=
  lc ← upto_passes; remove_beam_idx;; mret lc.

Definition run_on_model : M Empty_set :=
  l ← prologue;
  let results_to_remove : list node_ref := [] in
  ctx ← run_passes l;
  remove_beam_idx;;
  remove_attention_mask;;
  finish l ctx results_to_remove.

End SDPAToPagedAttention.

(** ** Vocabulary of the properties *)

(** Lines 108-134: what remains to run once [beam_idx] has been dealt with. *)
Definition from_attention_mask (l : Locals) (ctx : PassContext) : M Empty_set :=
  remove_attention_mask;; finish l ctx [].

(** The contract of the collaborators that the frame property of the
    Result list relies on: no sub-pass edits the Result list. *)
Definition passes_keep_results (sub : SubPasses) : Prop :=
  (∀ remaining sw mcl ctx m,
     m_results (StateManagementPattern sub remaining sw mcl ctx m).2 = m_results m)
  ∧ (∀ h m, m_results (PrevSequenceLengthPattern sub h m) = m_results m)
  ∧ (∀ h m, m_results (TotalSequenceLengthPattern sub h m) = m_results m)
  ∧ (∀ h m, m_results (PositionIDsReplacer sub h m) = m_results m).

(** A computation that never ends in [return true]. *)
Definition no_success {A : Type} (c : M A) : Prop :=
  ∀ m m', c m ≠ (Returns true, m').

(** A computation that leaves the Result list as it found it, however it
    ends. *)
Definition keeps_results {A : Type} (c : M A) : Prop :=
  ∀ m, m_results (c m).2 = m_results m.

(** The five names of the scheduling metadata. *)
Definition scheduling_names : list string :=
  ["max_context_len"; "context_lens"; "subsequence_begins"; "block_indices";
   "block_indices_begins"].

(** How many entries of the Parameter list carry the name. *)
Definition count_name (m : Model) (name : string) : nat :=
  length (filter (λ r, name ∈ get_names m r) (m_parameters m)).

(** The six nodes that lines 31-38 allocate, in the order of allocation. *)
Definition synthesized : list Node :=
  [ mkNode (v0_Parameter i32 []) [] "max_context_len" ["max_context_len"];
    mkNode (v0_Parameter i32 [(-1)%Z]) [] "context_lens" ["context_lens"];
    mkNode (v0_Parameter i32 [(-1)%Z]) [] "subsequence_begins" ["subsequence_begins"];
    mkNode (v0_Parameter i32 [(-1)%Z]) [] "block_indices" ["block_indices"];
    mkNode (v0_Parameter i32 [(-1)%Z]) [] "block_indices_begins" ["block_indices_begins"];
    mkNode (v0_Constant i32 [] [0%Z]) [] "" [] ].

(** What a lookup by name and a downcast can see of a store survives in
    another one: each live handle keeps its tensor names and stays, or stays
    not, a Parameter. *)
Definition preserved (ns ns' : list Node) : Prop :=
  ∀ r a, ns !! r = Some a →
    ∃ b, ns' !! r = Some b
         ∧ tensor_names b = tensor_names a ∧ is_Parameter b = is_Parameter a.

(** The store when control reaches line 69, for a graph whose [input_ids]
    is the Parameter [i]: the six synthesized nodes, the axis constant and
    the Unsqueeze of [input_ids], and the six nodes of lines 47-51. *)
Definition store_at_line_69 (m : Model) (i : node_ref) : list Node :=
  let n := length (nodes m) in
  redirect i (n + 7)
    (alter (reshape [(-1)%Z]) i (nodes m ++ synthesized)
     ++ [ mkNode (v0_Constant i32 [] [1%Z]) [] "" [];
          mkNode v0_Unsqueeze [i; n + 6] "" [] ])
  ++ [ mkNode v3_ShapeOf [n + 7] "" [];
       mkNode (v0_Constant i64 [] [1%Z]) [] "" [];
       mkNode (v0_Constant i64 [] [0%Z]) [] "" [];
       mkNode v8_Gather [n + 8; n + 9; n + 10] "" [];
       mkNode (v0_Convert i32) [n + 11] "" [];
       mkNode v1_Subtract [n; n + 12] "" [] ].

(** In the store of [m], [u] is the Unsqueeze of [x] along axis 1: its
    operands are [x] and the [i32] scalar constant 1. *)
Definition expands (m : Model) (u x : node_ref) : Prop :=
  ∃ axis,
    nodes m !! u = Some (mkNode v0_Unsqueeze [x; axis] "" [])
    ∧ nodes m !! axis = Some (mkNode (v0_Constant i32 [] [1%Z]) [] "" []).

(** Between the stores of [m] and [m'], an expansion node [u] has been
    inserted on [p]: [u] is new, it is the Unsqueeze of [p] along axis 1,
    every input port that read [p] in [m] reads [u] in [m'], and [u] is the
    only node of [m'] that reads [p]. *)
Definition inserted (m m' : Model) (p u : node_ref) : Prop :=
  nodes m !! u = None
  ∧ expands m' u p
  ∧ (∀ c nd k, nodes m !! c = Some nd → node_inputs nd !! k = Some p →
       ∃ nd', nodes m' !! c = Some nd' ∧ node_inputs nd' !! k = Some u)
  ∧ (∀ c nd, nodes m' !! c = Some nd → p ∈ node_inputs nd → c = u).

(** How a computation ended, whatever value it would have handed on. *)
Inductive ending : Type :=
  | Falls
  | Gives (b : bool)
  | Raises (name : string)
  | Crashes.

Definition ending_of {A : Type} (s : signal A) : ending :=
  match s with
  | Next _ => Falls
  | Returns b => Gives b
  | Throws name => Raises name
  | NullDeref => Crashes
  end.

(** A computation none of whose runs ends in one of the [bad] ways. *)
Definition avoids {A : Type} (bad : ending → Prop) (c : M A) : Prop :=
  ∀ m, ¬ bad (ending_of (c m).1).

(** A computation that leaves one component of the model as it found it,
    however it ends. *)
Definition keeps {A X : Type} (field : Model → X) (c : M A) : Prop :=
  ∀ m, field (c m).2 = field m.

(** What the adaptation of an input may change of a node: the wiring of
    its operands and, for a Parameter, its shape.  The names, the number of
    operands and the operation (for a Parameter, its element type) stay. *)
Definition adapted (a b : Node) : Prop :=
  friendly_name b = friendly_name a
  ∧ tensor_names b = tensor_names a
  ∧ length (node_inputs b) = length (node_inputs a)
  ∧ (node_op b = node_op a
     ∨ ∃ et ps ps', node_op a = v0_Parameter et ps ∧ node_op b = v0_Parameter et ps').

(** Every node of the first store is still there in the second one, adapted
    at most. *)
Definition evolves (ns ns' : list Node) : Prop :=
  ∀ r a, ns !! r = Some a → ∃ b, ns' !! r = Some b ∧ adapted a b.

(** ** Sample graphs and collaborators, used to run the embedding *)

Module Samples.

Definition param (et : element_type) (ps : PartialShape) (name : string) : Node :=
  mkNode (v0_Parameter et ps) [] name [name].

Definition other (type_name : string) (ins : list node_ref) (names : list string) : Node :=
  mkNode (Opaque type_name) ins type_name names.

(** The body shared by the sample graphs: an embedding of the tokens, one
    attention block reading inputs 1 and 2, two layers with a key and a
    value Assign each, and one Result. *)
Definition body : list Node :=
  [ other "Gather" [0] [];
    other "ScaledDotProductAttention" [4; 1; 2] [];
    other "Assign" [5] []; other "Assign" [5] [];
    other "Assign" [5] []; other "Assign" [5] [];
    other "Result" [5] ["logits"] ].

Definition graph (n1 n2 n3 : Node) : Model :=
  mkModel ([param i64 [(-1)%Z] "input_ids"; n1; n2; n3] ++ body)
          [0; 1; 2; 3] [10] [6; 7; 8; 9].

(** [input_ids], [attention_mask], [beam_idx] and a [past_len] input that
    the state-management pass of [passes] marks as obsolete. *)
Definition stateful : Model :=
  graph (param i64 [(-1)%Z; (-1)%Z] "attention_mask")
        (param i32 [(-1)%Z] "beam_idx")
        (param i64 [] "past_len").

(** As [stateful], with [position_ids] in place of [beam_idx]. *)
Definition with_position_ids : Model :=
  graph (param i64 [(-1)%Z; (-1)%Z] "attention_mask")
        (param i64 [(-1)%Z; (-1)%Z] "position_ids")
        (param i64 [] "past_len").

(** The name [attention_mask] sits on a computed value. *)
Definition computed_mask : Model :=
  graph (other "Multiply" [0; 0] ["attention_mask"])
        (param i32 [(-1)%Z] "beam_idx")
        (param i64 [] "past_len").

(** The name [beam_idx] sits on a computed value. *)
Definition computed_beam_idx : Model :=
  graph (param i64 [(-1)%Z; (-1)%Z] "attention_mask")
        (other "Range" [0] ["beam_idx"])
        (param i64 [] "past_len").

(** The name [position_ids] sits on a computed value. *)
Definition computed_position_ids : Model :=
  graph (param i64 [(-1)%Z; (-1)%Z] "attention_mask")
        (other "Range" [0] ["position_ids"])
        (param i64 [] "past_len").

(** The name [input_ids] sits on a computed value. *)
Definition computed_input_ids : Model :=
  mkModel ([other "Convert" [1] ["input_ids"];
            param i64 [(-1)%Z; (-1)%Z] "attention_mask";
            param i32 [(-1)%Z] "beam_idx"; param i64 [] "past_len"] ++ body)
          [0; 1; 2; 3] [10] [6; 7; 8; 9].

(** No input carries the name [input_ids]. *)
Definition no_input_ids : Model :=
  mkModel ([param i64 [(-1)%Z] "tokens";
            param i64 [(-1)%Z; (-1)%Z] "attention_mask";
            param i32 [(-1)%Z] "beam_idx"; param i64 [] "past_len"] ++ body)
          [0; 1; 2; 3] [10] [6; 7; 8; 9].

(** An input of the original graph is already called [context_lens]. *)
Definition named_context_lens : Model :=
  graph (param i64 [(-1)%Z; (-1)%Z] "attention_mask")
        (param i32 [(-1)%Z] "beam_idx")
        (param i32 [(-1)%Z] "context_lens").

(** [stateful] and [with_position_ids] as line 69 finds them. *)
Definition stateful_at_line_69 : Model :=
  with_nodes stateful (store_at_line_69 stateful 0).

Definition with_position_ids_at_line_69 : Model :=
  with_nodes with_position_ids (store_at_line_69 with_position_ids 0).

(** A state-management pass for two layers: it creates a key and a value
    Parameter per layer, counts the layers, marks input 3 as obsolete and
    tracks no Assign. *)
Definition new_kv : M (list node_ref) :=
  k0 ← named_Parameter f32 [(-1)%Z; (-1)%Z] "key_cache.0";
  v0 ← named_Parameter f32 [(-1)%Z; (-1)%Z] "value_cache.0";
  k1 ← named_Parameter f32 [(-1)%Z; (-1)%Z] "key_cache.1";
  v1 ← named_Parameter f32 [(-1)%Z; (-1)%Z] "value_cache.1";
  mret [k0; v0; k1; v1].

Definition state_management (remaining : list node_ref) (sliding_window : node_ref)
    (max_context_len : node_ref) (ctx : PassContext) (m : Model)
  : PassContext * Model :=
  match new_kv m with
  | (Next kv, m') =>
      (mkPassContext (kv_parameters ctx ++ kv) (parameters_to_remove ctx ++ [3])
                     (assignes_to_remove ctx) (layer_index ctx + 2)%Z, m')
  | (_, m') => (ctx, m')
  end.

Definition passes : SubPasses :=
  mkSubPasses state_management (λ _ m, m) (λ _ m, m) (λ _ m, m).

(** Passes that match nothing. *)
Definition idle : SubPasses :=
  mkSubPasses (λ _ _ _ ctx m, (ctx, m)) (λ _ m, m) (λ _ m, m) (λ _ m, m).

End Samples.

(** * Properties *)

(** ** Running the monad *)

Ltac munfold :=
  unfold mbind, M_mbind, M_bind, mret, M_mret, M_ret, return_ in *.

Lemma bind_Next {A B : Type} (c : M A) (k : A → M B) (m m' : Model) (a : A) :
  c m = (Next a, m') → (c ≫= k) m = k a m'.
Proof. intros H. munfold. by rewrite H. Qed.

Lemma bind_escape {A B : Type} (c : M A) (k : A → M B) (m m' : Model) (s : signal A) :
  c m = (s, m') → escapes s → (c ≫= k) m = (cast_signal s, m').
Proof. intros H Hs. munfold. rewrite H. by destruct s. Qed.

Lemma bind_inv {A B : Type} (c : M A) (k : A → M B) (m m2 : Model) (s : signal B) :
  (c ≫= k) m = (s, m2) →
  (∃ a m1, c m = (Next a, m1) ∧ k a m1 = (s, m2))
  ∨ (∃ s', c m = (s', m2) ∧ escapes s' ∧ s = cast_signal s').
Proof.
  munfold. destruct (c m) as [[a|b|w|] m1] eqn:E; intros H.
  - left. eauto.
  - right. exists (Returns b). by inversion H.
  - right. exists (Throws w). by inversion H.
  - right. exists NullDeref. by inversion H.
Qed.

(** ** The loops of the finalizer *)

Lemma filter_not_in_nil (ps : list node_ref) :
  filter (λ r, r ∉ @nil node_ref) ps = ps.
Proof.
  induction ps as [|p ps IH]; [done|].
  rewrite filter_cons_True; [by rewrite IH|]. apply not_elem_of_nil.
Qed.

Lemma filter_not_in_cons (x : node_ref) (l ps : list node_ref) :
  filter (λ r, r ∉ l) (filter (λ r, r ≠ x) ps) = filter (λ r, r ∉ (x :: l)) ps.
Proof.
  rewrite list_filter_filter. apply list_filter_iff. intros r.
  rewrite not_elem_of_cons. tauto.
Qed.

Lemma for_each_remove_parameter (l : list node_ref) (m : Model) :
  for_each l remove_parameter m
  = (Next tt, with_parameters m (filter (λ r, r ∉ l) (m_parameters m))).
Proof.
  revert m. induction l as [|x l IH]; intros m.
  - simpl. rewrite filter_not_in_nil. by destruct m.
  - simpl. munfold. unfold remove_parameter at 1. rewrite IH.
    unfold with_parameters. simpl. by rewrite filter_not_in_cons.
Qed.

Lemma for_each_remove_sink (l : list node_ref) (m : Model) :
  for_each l remove_sink m
  = (Next tt, with_sinks m (filter (λ r, r ∉ l) (m_sinks m))).
Proof.
  revert m. induction l as [|x l IH]; intros m.
  - simpl. rewrite filter_not_in_nil. by destruct m.
  - simpl. munfold. unfold remove_sink at 1. rewrite IH.
    unfold with_sinks. simpl. by rewrite filter_not_in_cons.
Qed.

Lemma for_each_remove_result (l : list node_ref) (m : Model) :
  for_each l remove_result m
  = (Next tt, with_results m (filter (λ r, r ∉ l) (m_results m))).
Proof.
  revert m. induction l as [|x l IH]; intros m.
  - simpl. rewrite filter_not_in_nil. by destruct m.
  - simpl. munfold. unfold remove_result at 1. rewrite IH.
    unfold with_results. simpl. by rewrite filter_not_in_cons.
Qed.

Lemma filter_not_in_self (l : list node_ref) : filter (λ r, r ∉ l) l = [].
Proof.
  destruct (filter (λ r, r ∉ l) l) as [|x k] eqn:E; [done|].
  assert (x ∈ filter (λ r, r ∉ l) l) as Hx by (rewrite E; left).
  apply list_elem_of_filter in Hx as [Hn Hi]. by destruct Hn.
Qed.

(** Lines 115-134 run to the end on every graph. *)
Lemma finish_eq (l : Locals) (ctx : PassContext) (rs : list node_ref) (m : Model) :
  finish l ctx rs m
  = (Returns true,
     mkModel (nodes m)
             (filter (λ r, r ∉ parameters_to_remove ctx) (m_parameters m)
                ++ kv_parameters ctx ++ model_remaining_params l ++ [max_context_len l])
             (filter (λ r, r ∉ rs) (m_results m))
             []).
Proof.
  unfold finish. munfold. rewrite for_each_remove_parameter.
  unfold get_sinks. rewrite for_each_remove_sink. rewrite for_each_remove_result.
  unfold add_parameters, with_parameters, with_sinks, with_results. simpl.
  rewrite filter_not_in_self. by rewrite <- !app_assoc.
Qed.

(** ** Signals of the blocks *)

Lemma no_success_bind {A B : Type} (c : M A) (k : A → M B) :
  no_success c → (∀ a, no_success (k a)) → no_success (c ≫= k).
Proof.
  intros Hc Hk m m' H. apply bind_inv in H as [(a & m1 & _ & H)|(s & H & _ & Hs)].
  - by apply Hk in H.
  - destruct s; try done. simpl in Hs. inversion Hs; subst. by apply Hc in H.
Qed.

Ltac no_success_step :=
  first
    [ apply no_success_bind; [|intros ?]
    | match goal with |- no_success (if ?b then _ else _) => destruct b end
    | match goal with |- no_success (match ?o with Some _ => _ | None => _ end) =>
        destruct o end
    | match goal with |- no_success (let '(_, _) := ?p in _) => destruct p end
    | (intros ? ?; cbv beta delta
          [model_input dynamic_pointer_cast_Parameter arrow make_shared
           Constant_create setName set_partial_shape replace_node add_parameters
           remove_parameter has_parameter_ return_ mret M_mret M_ret];
       repeat case_match; congruence) ].

Lemma prologue_no_success : no_success prologue.
Proof.
  unfold prologue, synthesize, adapt_input_ids, make_prev_max_seq_len,
    adapt_position_ids, named_Parameter.
  repeat no_success_step.
Qed.

Lemma run_passes_Next (sub : SubPasses) (l : Locals) (m : Model) :
  ∃ ctx m1, run_passes sub l m = (Next ctx, m1).
Proof. unfold run_passes. destruct (StateManagementPattern _ _ _ _ _ _). eauto. Qed.

Lemma remove_beam_idx_no_success : no_success remove_beam_idx.
Proof. unfold remove_beam_idx. repeat no_success_step. Qed.

Lemma remove_attention_mask_no_success : no_success remove_attention_mask.
Proof. unfold remove_attention_mask. repeat no_success_step. Qed.

Lemma upto_passes_no_success (sub : SubPasses) : no_success (upto_passes sub).
Proof.
  unfold upto_passes. apply no_success_bind; [apply prologue_no_success|].
  intros l. apply no_success_bind; [|by intros ???].
  intros m m'. destruct (run_passes_Next sub l m) as (ctx & m1 & ->). done.
Qed.

Lemma upto_beam_idx_no_success (sub : SubPasses) : no_success (upto_beam_idx sub).
Proof.
  unfold upto_beam_idx. apply no_success_bind; [apply upto_passes_no_success|].
  intros lc. apply no_success_bind; [apply remove_beam_idx_no_success|].
  by intros ???.
Qed.

(** ** The shape of [run_on_model] *)

Lemma run_on_model_from_passes (sub : SubPasses) (m : Model) :
  run_on_model sub m
  = (upto_passes sub ≫= λ lc, remove_beam_idx;; from_attention_mask lc.1 lc.2) m.
Proof.
  unfold run_on_model, upto_passes, from_attention_mask. munfold.
  destruct (prologue m) as [[l| | |] m0]; try done.
  destruct (run_passes_Next sub l m0) as (ctx & m1 & ->). done.
Qed.

Lemma run_on_model_from_beam_idx (sub : SubPasses) (m : Model) :
  run_on_model sub m = (upto_beam_idx sub ≫= λ lc, from_attention_mask lc.1 lc.2) m.
Proof.
  rewrite run_on_model_from_passes. unfold upto_beam_idx. munfold.
  destruct (upto_passes sub m) as [[lc| | |] m1]; try done.
  destruct (remove_beam_idx m1) as [[[]| | |] m2]; done.
Qed.

(** ** Lookups *)

Lemma as_Parameter_cases (m : Model) (r : node_ref) :
  as_Parameter m r = Some r ∨ as_Parameter m r = None.
Proof. unfold as_Parameter. repeat case_match; auto. Qed.

Lemma has_parameter_input (m : Model) (name : string) :
  has_parameter m name = bool_decide (is_Some (input m name)).
Proof.
  unfold has_parameter, input, inputs, has_name.
  induction (m_parameters m) as [|r ps IH]; [done|]. simpl.
  by destruct (bool_decide (name ∈ get_names m r)).
Qed.

Lemma input_elem_of (m : Model) (name : string) (r : node_ref) :
  input m name = Some r → r ∈ m_parameters m ∧ name ∈ get_names m r.
Proof.
  unfold input, inputs, has_name. intros H. apply find_some in H as [Hin Hn].
  split; [by apply list_elem_of_In|]. by apply bool_decide_eq_true in Hn.
Qed.

(** ** The three outcomes of lines 99-106 *)

Lemma remove_beam_idx_absent (m : Model) :
  input m "beam_idx" = None → remove_beam_idx m = (Next tt, m).
Proof.
  intros H. unfold remove_beam_idx, has_parameter_. munfold.
  rewrite has_parameter_input, H. by rewrite bool_decide_eq_false_2 by by intros [??].
Qed.

Lemma remove_beam_idx_parameter (m : Model) (p : node_ref) :
  input m "beam_idx" = Some p → as_Parameter m p = Some p →
  remove_beam_idx m
  = (Next tt, with_parameters m (filter (λ r, r ≠ p) (m_parameters m))).
Proof.
  intros H Hp. unfold remove_beam_idx, has_parameter_, model_input,
    dynamic_pointer_cast_Parameter. munfold.
  rewrite has_parameter_input, H. rewrite bool_decide_eq_true_2 by eauto.
  rewrite H. simpl. by rewrite Hp.
Qed.

Lemma remove_beam_idx_other (m : Model) (o : node_ref) :
  input m "beam_idx" = Some o → as_Parameter m o = None →
  remove_beam_idx m = (Returns false, m).
Proof.
  intros H Hp. unfold remove_beam_idx, has_parameter_, model_input,
    dynamic_pointer_cast_Parameter. munfold.
  rewrite has_parameter_input, H. rewrite bool_decide_eq_true_2 by eauto.
  rewrite H. simpl. by rewrite Hp.
Qed.

(** C7. When control reaches line 99 in the graph [m1]: an input named
    [beam_idx] that is a Parameter is erased from the Parameter list and the
    run goes on at line 108; one that is not a Parameter makes the run
    return [false] on the spot; and when no input carries the name the run
    goes on at line 108 with the graph as it is. *)
Theorem beam_idx_handling (sub : SubPasses) (m m1 : Model) (l : Locals)
    (ctx : PassContext) :
  upto_passes sub m = (Next (l, ctx), m1) →
  (∀ p, input m1 "beam_idx" = Some p → as_Parameter m1 p = Some p →
     (p ∉ filter (λ r, r ≠ p) (m_parameters m1))
     ∧ run_on_model sub m
       = from_attention_mask l ctx
           (with_parameters m1 (filter (λ r, r ≠ p) (m_parameters m1))))
  ∧ (∀ o, input m1 "beam_idx" = Some o → as_Parameter m1 o = None →
     run_on_model sub m = (Returns false, m1))
  ∧ (input m1 "beam_idx" = None →
     run_on_model sub m = from_attention_mask l ctx m1).
Proof.
  intros Hup. rewrite run_on_model_from_passes.
  rewrite (bind_Next _ _ _ _ _ Hup). simpl. split; [|split].
  - intros p Hin Hp. split.
    + rewrite list_elem_of_filter. by intros [? _].
    + by rewrite (bind_Next _ _ _ _ _ (remove_beam_idx_parameter _ _ Hin Hp)).
  - intros o Hin Ho.
    by rewrite (bind_escape _ _ _ _ _ (remove_beam_idx_other _ _ Hin Ho)).
  - intros Hin. by rewrite (bind_Next _ _ _ _ _ (remove_beam_idx_absent _ Hin)).
Qed.

Lemma beam_idx_handling_witness :
  (∃ l ctx m1,
     upto_passes Samples.passes Samples.stateful = (Next (l, ctx), m1)
     ∧ input m1 "beam_idx" = Some 2
     ∧ (2 ∉ filter (λ r, r ≠ 2) (m_parameters m1))
     ∧ run_on_model Samples.passes Samples.stateful
       = from_attention_mask l ctx
           (with_parameters m1 (filter (λ r, r ≠ 2) (m_parameters m1))))
  ∧ (∃ l ctx m1,
       upto_passes Samples.passes Samples.computed_beam_idx = (Next (l, ctx), m1)
       ∧ input m1 "beam_idx" = Some 2
       ∧ as_Parameter m1 2 = None
       ∧ run_on_model Samples.passes Samples.computed_beam_idx = (Returns false, m1))
  ∧ (∃ l ctx m1,
       upto_passes Samples.passes Samples.with_position_ids = (Next (l, ctx), m1)
       ∧ input m1 "beam_idx" = None
       ∧ run_on_model Samples.passes Samples.with_position_ids
         = from_attention_mask l ctx m1).
Proof.
  split; [|split].
  - eexists _, _, _. split; [vm_compute; reflexivity|].
    split; [vm_compute; reflexivity|].
    unshelve eapply (proj1 (beam_idx_handling Samples.passes Samples.stateful _ _ _ _) 2);
      try (vm_compute; reflexivity).
  - eexists _, _, _. split; [vm_compute; reflexivity|].
    split; [vm_compute; reflexivity|]. split; [vm_compute; reflexivity|].
    unshelve eapply (proj1 (proj2 (beam_idx_handling Samples.passes
                            Samples.computed_beam_idx _ _ _ _)) 2);
      try (vm_compute; reflexivity).
  - eexists _, _, _. split; [vm_compute; reflexivity|].
    split; [vm_compute; reflexivity|].
    unshelve eapply (proj2 (proj2 (beam_idx_handling Samples.passes
                            Samples.with_position_ids _ _ _ _)));
      try (vm_compute; reflexivity).
Defined.

(** ** The two outcomes of lines 108-113 *)

Lemma remove_attention_mask_parameter (m : Model) (p : node_ref) :
  input m "attention_mask" = Some p → as_Parameter m p = Some p →
  remove_attention_mask m
  = (Next tt, with_parameters m (filter (λ r, r ≠ p) (m_parameters m))).
Proof.
  intros H Hp. unfold remove_attention_mask, model_input,
    dynamic_pointer_cast_Parameter. munfold. by rewrite H, Hp.
Qed.

Lemma remove_attention_mask_other (m : Model) (o : node_ref) :
  input m "attention_mask" = Some o → as_Parameter m o = None →
  remove_attention_mask m = (Returns false, m).
Proof.
  intros H Hp. unfold remove_attention_mask, model_input,
    dynamic_pointer_cast_Parameter. munfold. by rewrite H, Hp.
Qed.

(** The Parameter list that lines 108-134 leave, given the one they find. *)
Lemma from_attention_mask_parameter (l : Locals) (ctx : PassContext) (m : Model)
    (p : node_ref) :
  input m "attention_mask" = Some p → as_Parameter m p = Some p →
  from_attention_mask l ctx m
  = (Returns true,
     mkModel (nodes m)
       (filter (λ r, r ∉ parameters_to_remove ctx)
               (filter (λ r, r ≠ p) (m_parameters m))
        ++ kv_parameters ctx ++ model_remaining_params l ++ [max_context_len l])
       (m_results m) []).
Proof.
  intros H Hp. unfold from_attention_mask.
  rewrite (bind_Next _ _ _ _ _ (remove_attention_mask_parameter _ _ H Hp)).
  rewrite finish_eq. simpl. by rewrite filter_not_in_nil.
Qed.

(** C1. When control reaches line 108 in the graph [m1] and the name
    [attention_mask] is bound there to a node that is not a Parameter, the
    run returns [false] and the graph it leaves is [m1] itself: lines
    115-133, the append step among them, have not run.  When the node is a
    Parameter, it is erased from the Parameter list (the run then succeeds
    and appends the new Parameters behind what is left). *)
Theorem attention_mask_handling (sub : SubPasses) (m m1 : Model) (l : Locals)
    (ctx : PassContext) (o : node_ref) :
  upto_beam_idx sub m = (Next (l, ctx), m1) →
  input m1 "attention_mask" = Some o →
  (as_Parameter m1 o = None → run_on_model sub m = (Returns false, m1))
  ∧ (as_Parameter m1 o = Some o →
     let base := filter (λ r, r ∉ parameters_to_remove ctx)
                        (filter (λ r, r ≠ o) (m_parameters m1)) in
     (o ∉ base)
     ∧ run_on_model sub m
       = (Returns true,
          mkModel (nodes m1)
            (base ++ kv_parameters ctx ++ model_remaining_params l
                  ++ [max_context_len l])
            (m_results m1) [])).
Proof.
  intros Hup Hin. rewrite run_on_model_from_beam_idx.
  rewrite (bind_Next _ _ _ _ _ Hup). simpl. split.
  - intros Ho. unfold from_attention_mask.
    by rewrite (bind_escape _ _ _ _ _ (remove_attention_mask_other _ _ Hin Ho)).
  - intros Ho. split.
    + rewrite !list_elem_of_filter. by intros (_ & ? & _).
    + by apply from_attention_mask_parameter.
Qed.

Lemma attention_mask_handling_witness :
  (∃ l ctx m1,
     upto_beam_idx Samples.passes Samples.computed_mask = (Next (l, ctx), m1)
     ∧ input m1 "attention_mask" = Some 1
     ∧ as_Parameter m1 1 = None
     ∧ run_on_model Samples.passes Samples.computed_mask = (Returns false, m1))
  ∧ (∃ l ctx m1,
       upto_beam_idx Samples.passes Samples.stateful = (Next (l, ctx), m1)
       ∧ input m1 "attention_mask" = Some 1
       ∧ as_Parameter m1 1 = Some 1
       ∧ (1 ∉ filter (λ r, r ∉ parameters_to_remove ctx)
                     (filter (λ r, r ≠ 1) (m_parameters m1)))
       ∧ run_on_model Samples.passes Samples.stateful
         = (Returns true,
            mkModel (nodes m1)
              (filter (λ r, r ∉ parameters_to_remove ctx)
                      (filter (λ r, r ≠ 1) (m_parameters m1))
               ++ kv_parameters ctx ++ model_remaining_params l
               ++ [max_context_len l])
              (m_results m1) [])).
Proof.
  split.
  - eexists _, _, _. split; [vm_compute; reflexivity|].
    split; [vm_compute; reflexivity|]. split; [vm_compute; reflexivity|].
    unshelve eapply (proj1 (attention_mask_handling Samples.passes
                              Samples.computed_mask _ _ _ 1 _ _));
      try (vm_compute; reflexivity).
  - eexists _, _, _. split; [vm_compute; reflexivity|].
    split; [vm_compute; reflexivity|]. split; [vm_compute; reflexivity|].
    unshelve eapply (proj2 (attention_mask_handling Samples.passes
                              Samples.stateful _ _ _ 1 _ _));
      try (vm_compute; reflexivity).
Defined.

(** ** Successful runs *)

Lemma success_inv (sub : SubPasses) (m m2 : Model) :
  run_on_model sub m = (Returns true, m2) →
  ∃ l ctx m1 p,
    upto_beam_idx sub m = (Next (l, ctx), m1)
    ∧ input m1 "attention_mask" = Some p
    ∧ as_Parameter m1 p = Some p
    ∧ m2 = mkModel (nodes m1)
             (filter (λ r, r ∉ parameters_to_remove ctx)
                     (filter (λ r, r ≠ p) (m_parameters m1))
              ++ kv_parameters ctx ++ model_remaining_params l ++ [max_context_len l])
             (m_results m1) [].
Proof.
  intros H. rewrite run_on_model_from_beam_idx in H.
  apply bind_inv in H as [([l ctx] & m1 & Hup & H)|(s & H & _ & Hs)].
  2:{ destruct s; try done. inversion Hs; subst.
      by apply upto_beam_idx_no_success in H. }
  simpl in H. exists l, ctx, m1.
  destruct (input m1 "attention_mask") as [p|] eqn:Hin.
  2:{ unfold from_attention_mask, remove_attention_mask, model_input in H.
      munfold. by rewrite Hin in H. }
  exists p. destruct (as_Parameter_cases m1 p) as [Hp|Hp].
  - rewrite (from_attention_mask_parameter _ _ _ _ Hin Hp) in H.
    inversion H. done.
  - unfold from_attention_mask in H.
    by rewrite (bind_escape _ _ _ _ _ (remove_attention_mask_other _ _ Hin Hp)) in H.
Qed.

(** C2. A run that returns [true] leaves no Sink in the graph, whatever
    the sub-passes did and whatever they recorded in [assignes_to_remove]. *)
Theorem success_leaves_no_sink (sub : SubPasses) (m m2 : Model) :
  run_on_model sub m = (Returns true, m2) → m_sinks m2 = [].
Proof. intros H. apply success_inv in H as (l & ctx & m1 & p & _ & _ & _ & ->). done. Qed.

Lemma success_leaves_no_sink_witness :
  m_sinks Samples.stateful = [6; 7; 8; 9]
  ∧ (run_on_model Samples.passes Samples.stateful).1 = Returns true
  ∧ m_sinks (run_on_model Samples.passes Samples.stateful).2 = [].
Proof.
  split; [reflexivity|]. split; [vm_compute; reflexivity|].
  apply (success_leaves_no_sink Samples.passes Samples.stateful).
  vm_compute; reflexivity.
Defined.

(** ** The Result list *)

Lemma keeps_results_bind {A B : Type} (c : M A) (k : A → M B) :
  keeps_results c → (∀ a, keeps_results (k a)) → keeps_results (c ≫= k).
Proof.
  intros Hc Hk m. specialize (Hc m). munfold.
  destruct (c m) as [[a| | |] m1]; simpl in *; try done.
  by rewrite Hk.
Qed.

Ltac keeps_results_step :=
  first
    [ apply keeps_results_bind; [|intros ?]
    | match goal with |- keeps_results (if ?b then _ else _) => destruct b end
    | match goal with |- keeps_results (match ?o with Some _ => _ | None => _ end) =>
        destruct o end
    | match goal with |- keeps_results (let '(_, _) := ?p in _) => destruct p end
    | (intros ?; cbv beta delta
          [model_input dynamic_pointer_cast_Parameter arrow make_shared
           Constant_create setName set_partial_shape replace_node add_parameters
           remove_parameter get_sinks has_parameter_ return_ mret M_mret M_ret];
       repeat case_match; reflexivity) ].

Lemma prologue_keeps_results : keeps_results prologue.
Proof.
  unfold prologue, synthesize, adapt_input_ids, make_prev_max_seq_len,
    adapt_position_ids, named_Parameter.
  repeat keeps_results_step.
Qed.

Lemma run_passes_keeps_results (sub : SubPasses) (l : Locals) :
  passes_keep_results sub → keeps_results (run_passes sub l).
Proof.
  intros (Hs & Hp & Ht & Hr) m. unfold run_passes.
  specialize (Hs (model_remaining_params l) (sliding_window l) (max_context_len l)
                 (mkPassContext [] [] [] 0%Z) m).
  destruct (StateManagementPattern _ _ _ _ _ _) as [ctx m1]. simpl in *.
  by rewrite Hr, Ht, Hp.
Qed.

Lemma for_each_keeps_results {A : Type} (l : list A) (body : A → M unit) :
  (∀ x, keeps_results (body x)) → keeps_results (for_each l body).
Proof.
  intros Hb. induction l as [|x l IH]; simpl; [done|].
  apply keeps_results_bind; [apply Hb|]. by intros _.
Qed.

Lemma finish_keeps_results (l : Locals) (ctx : PassContext) :
  keeps_results (finish l ctx []).
Proof.
  unfold finish.
  apply keeps_results_bind;
    [apply for_each_keeps_results; intros; keeps_results_step|intros _].
  apply keeps_results_bind; [keeps_results_step|intros sinks].
  apply keeps_results_bind;
    [apply for_each_keeps_results; by intros ??|intros _].
  repeat keeps_results_step.
Qed.

Lemma bind_keeps_results {A B : Type} (c : M A) (k : A → M B) (m : Model) :
  (∀ a, keeps_results (k a)) → m_results ((c ≫= k) m).2 = m_results (c m).2.
Proof.
  intros Hk. munfold. destruct (c m) as [[a| | |] m1]; simpl; try done.
  apply Hk.
Qed.

Lemma finalizer_keeps_results (l : Locals) (ctx : PassContext) :
  keeps_results (remove_beam_idx;; from_attention_mask l ctx).
Proof.
  apply keeps_results_bind; [unfold remove_beam_idx; repeat keeps_results_step|intros _].
  unfold from_attention_mask.
  apply keeps_results_bind;
    [unfold remove_attention_mask; repeat keeps_results_step|intros _].
  apply finish_keeps_results.
Qed.

(** C9. [results_to_remove] is declared empty (line 67), is not among the
    references handed to the sub-passes and is still empty when line 127
    iterates it.  The Result list is the same at line 83 as on entry, and
    the same at the end of the run as the sub-passes left it, whether the
    run returns [true], returns [false], raises or dereferences null; so
    with sub-passes that leave the Result list alone, [run_on_model] leaves
    it as it found it. *)
Theorem results_unchanged (sub : SubPasses) (m : Model) :
  m_results (prologue m).2 = m_results m
  ∧ m_results (run_on_model sub m).2 = m_results (upto_passes sub m).2
  ∧ (passes_keep_results sub → m_results (run_on_model sub m).2 = m_results m).
Proof.
  split; [apply prologue_keeps_results|]. split.
  - rewrite run_on_model_from_passes. apply bind_keeps_results.
    intros [l ctx]. apply finalizer_keeps_results.
  - intros Hsub. revert m. change (keeps_results (run_on_model sub)).
    unfold run_on_model.
    apply keeps_results_bind; [apply prologue_keeps_results|intros l].
    apply keeps_results_bind; [by apply run_passes_keeps_results|intros ctx].
    apply finalizer_keeps_results.
Qed.

Lemma results_unchanged_witness :
  passes_keep_results Samples.passes
  ∧ m_results Samples.stateful = [10]
  ∧ m_results (run_on_model Samples.passes Samples.stateful).2 = [10]
  ∧ m_results (run_on_model Samples.passes Samples.computed_mask).2 = [10]
  ∧ m_results (run_on_model Samples.passes Samples.no_input_ids).2 = [10].
Proof.
  assert (passes_keep_results Samples.passes) as H.
  { repeat split; intros; reflexivity. }
  split; [exact H|]. split; [reflexivity|].
  split; [|split].
  - apply (proj2 (proj2 (results_unchanged Samples.passes Samples.stateful)) H).
  - apply (proj2 (proj2 (results_unchanged Samples.passes Samples.computed_mask)) H).
  - apply (proj2 (proj2 (results_unchanged Samples.passes Samples.no_input_ids)) H).
Defined.

(** ** What lines 31-38 allocate *)

Lemma named_Parameter_eq (et : element_type) (ps : PartialShape) (name : string)
    (m : Model) :
  named_Parameter et ps name m
  = (Next (length (nodes m)),
     with_nodes m (nodes m ++ [mkNode (v0_Parameter et ps) [] name [name]])).
Proof.
  unfold named_Parameter, make_shared, setName, with_nodes. munfold. simpl.
  rewrite alter_app_r_alt by done. by rewrite Nat.sub_diag.
Qed.

Lemma with_nodes_twice (m : Model) (ns ns' : list Node) :
  with_nodes (with_nodes m ns) ns' = with_nodes m ns'.
Proof. done. Qed.

Lemma synthesize_eq (m : Model) :
  let n := length (nodes m) in
  synthesize m
  = (Next (n, [n + 1; n + 2; n + 3; n + 4], n + 5),
     with_nodes m (nodes m ++ synthesized)).
Proof.
  intros n. unfold synthesize, Constant_create, make_shared.
  do 5 (rewrite (bind_Next _ _ _ _ _ (named_Parameter_eq _ _ _ _)); simpl).
  munfold. simpl. rewrite !length_app, !with_nodes_twice. simpl.
  rewrite <- !app_assoc. simpl. fold n.
  by rewrite <- !Nat.add_assoc.
Qed.

Lemma bind_inv_Next {A B : Type} (c : M A) (k : A → M B) (m m2 : Model) (b : B) :
  (c ≫= k) m = (Next b, m2) →
  ∃ a m1, c m = (Next a, m1) ∧ k a m1 = (Next b, m2).
Proof.
  intros H. apply bind_inv in H as [H|(s & _ & Hs & Heq)]; [done|].
  by destruct s.
Qed.

Lemma prologue_inv (m m0 : Model) (l : Locals) :
  prologue m = (Next l, m0) →
  let n := length (nodes m) in
  ∃ ma mb u,
    adapt_input_ids (with_nodes m (nodes m ++ synthesized)) = (Next u, ma)
    ∧ make_prev_max_seq_len n u ma = (Next (prev_max_seq_len l), mb)
    ∧ adapt_position_ids mb = (Next (unsqueezed_position_ids l), m0)
    ∧ max_context_len l = n
    ∧ model_remaining_params l = [n + 1; n + 2; n + 3; n + 4]
    ∧ sliding_window l = n + 5
    ∧ unsqueezed_input_ids l = u.
Proof.
  intros H n. unfold prologue in H.
  rewrite (bind_Next _ _ _ _ _ (synthesize_eq m)) in H. simpl in H.
  apply bind_inv_Next in H as (u & ma & Hu & H).
  apply bind_inv_Next in H as (h & mb & Hh & H).
  apply bind_inv_Next in H as (v & mc & Hv & H).
  inversion H; subst. simpl. by exists ma, mb, u.
Qed.

Lemma upto_passes_inv (sub : SubPasses) (m m1 : Model) (l : Locals)
    (ctx : PassContext) :
  upto_passes sub m = (Next (l, ctx), m1) →
  ∃ m0, prologue m = (Next l, m0) ∧ run_passes sub l m0 = (Next ctx, m1).
Proof.
  intros H. unfold upto_passes in H.
  apply bind_inv_Next in H as (l' & m0 & Hl & H).
  apply bind_inv_Next in H as (ctx' & m1' & Hc & H).
  inversion H; subst. eauto.
Qed.

Lemma remove_beam_idx_inv (m m' : Model) :
  remove_beam_idx m = (Next tt, m') →
  nodes m' = nodes m ∧ m_parameters m' `sublist_of` m_parameters m.
Proof.
  intros H. destruct (input m "beam_idx") as [p|] eqn:Hin.
  - destruct (as_Parameter_cases m p) as [Hp|Hp].
    + rewrite (remove_beam_idx_parameter _ _ Hin Hp) in H. inversion H; subst.
      split; [done|]. apply sublist_filter.
    + by rewrite (remove_beam_idx_other _ _ Hin Hp) in H.
  - rewrite (remove_beam_idx_absent _ Hin) in H. by inversion H; subst.
Qed.

Lemma upto_beam_idx_inv (sub : SubPasses) (m m1 : Model) (l : Locals)
    (ctx : PassContext) :
  upto_beam_idx sub m = (Next (l, ctx), m1) →
  ∃ m', upto_passes sub m = (Next (l, ctx), m')
        ∧ nodes m1 = nodes m' ∧ m_parameters m1 `sublist_of` m_parameters m'.
Proof.
  intros H. unfold upto_beam_idx in H.
  apply bind_inv_Next in H as (lc & m' & Hup & H).
  apply bind_inv_Next in H as ([] & m1' & Hb & H).
  inversion H; subst. exists m'. split; [done|]. by apply remove_beam_idx_inv.
Qed.

(** C3. A run that returns [true] leaves a Parameter list that ends with
    the KV Parameters in the order the state-management pass recorded them,
    then the four vectors created as [context_lens], [subsequence_begins],
    [block_indices], [block_indices_begins], then the scalar created as
    [max_context_len]; ahead of them is what is left of the list the
    sub-passes returned. *)
Theorem append_order (sub : SubPasses) (m m2 : Model) :
  run_on_model sub m = (Returns true, m2) →
  let n := length (nodes m) in
  ∃ l ctx m1 base,
    upto_passes sub m = (Next (l, ctx), m1)
    ∧ base `sublist_of` m_parameters m1
    ∧ m_parameters m2
      = base ++ kv_parameters ctx ++ [n + 1; n + 2; n + 3; n + 4] ++ [n]
    ∧ get_names (synthesize m).2 <$> [n + 1; n + 2; n + 3; n + 4; n]
      = [ ["context_lens"]; ["subsequence_begins"]; ["block_indices"];
          ["block_indices_begins"]; ["max_context_len"] ].
Proof.
  intros H n. apply success_inv in H as (l & ctx & m1 & p & Hup & _ & _ & ->).
  apply upto_beam_idx_inv in Hup as (m' & Hup & _ & Hsub).
  pose proof Hup as Hup'. apply upto_passes_inv in Hup' as (m0 & Hpro & _).
  apply prologue_inv in Hpro as (_ & _ & _ & _ & _ & _ & Hmcl & Hrem & _).
  exists l, ctx, m',
    (filter (λ r, r ∉ parameters_to_remove ctx)
            (filter (λ r, r ≠ p) (m_parameters m1))).
  split; [done|]. split; [|split].
  - etrans; [|exact Hsub]. etrans; apply sublist_filter.
  - simpl. by rewrite Hmcl, Hrem.
  - rewrite (synthesize_eq m). unfold get_names. simpl. fold n.
    rewrite !lookup_app_r by lia. subst n.
    replace (length (nodes m) + 1 - length (nodes m)) with 1 by lia.
    replace (length (nodes m) + 2 - length (nodes m)) with 2 by lia.
    replace (length (nodes m) + 3 - length (nodes m)) with 3 by lia.
    replace (length (nodes m) + 4 - length (nodes m)) with 4 by lia.
    by rewrite Nat.sub_diag.
Qed.

Lemma append_order_witness :
  (run_on_model Samples.passes Samples.stateful).1 = Returns true
  ∧ ∃ l ctx m1 base,
      upto_passes Samples.passes Samples.stateful = (Next (l, ctx), m1)
      ∧ base `sublist_of` m_parameters m1
      ∧ m_parameters (run_on_model Samples.passes Samples.stateful).2
        = base ++ kv_parameters ctx ++ [12; 13; 14; 15] ++ [11]
      ∧ get_names (synthesize Samples.stateful).2 <$> [12; 13; 14; 15; 11]
        = [ ["context_lens"]; ["subsequence_begins"]; ["block_indices"];
            ["block_indices_begins"]; ["max_context_len"] ].
Proof.
  split; [vm_compute; reflexivity|].
  apply (append_order Samples.passes Samples.stateful).
  vm_compute; reflexivity.
Defined.

(** ** Names in the final Parameter list *)

Lemma filter_none {A : Type} (P : A → Prop) `{∀ x, Decision (P x)} (l : list A) :
  (∀ x, x ∈ l → ¬ P x) → filter P l = [].
Proof.
  induction l as [|x l IH]; intros Hl; [done|].
  rewrite filter_cons_False by (apply Hl; left).
  apply IH. intros y Hy. apply Hl. by right.
Qed.

Lemma count_among_five (name : string) (names : node_ref → list string)
    (a b c d e : node_ref) :
  names <$> [a; b; c; d; e] = (λ x, [x]) <$> scheduling_names →
  name ∈ scheduling_names →
  length (filter (λ r, name ∈ names r) [b; c; d; e; a]) = 1.
Proof.
  intros Hn Hin. simpl in Hn. inversion Hn as [[Ha Hb Hc Hd He]]. clear Hn.
  rewrite !filter_cons, filter_nil, Ha, Hb, Hc, Hd, He.
  unfold scheduling_names in Hin.
  repeat (apply elem_of_cons in Hin as [->|Hin]);
    [..|by apply elem_of_nil in Hin];
    repeat case_decide; try done;
    repeat match goal with
      | H : _ ∈ [_] |- _ => apply list_elem_of_singleton in H; try discriminate H
      | H : ¬ (_ ∈ [_]) |- _ => by destruct H; apply list_elem_of_singleton
      end.
Qed.

(** C8, as amended.  Lines 31-37 create [max_context_len] as an [i32] scalar
    Parameter and the four vectors as [i32] Parameters of shape [[-1]], each
    under its own name.  On a successful run, if at line 99 the five still
    carry their names and no entry of the Parameter list and no KV Parameter
    carries one of them, then each of the five names is carried by exactly
    one entry of the final Parameter list, whatever the number of KV
    Parameters. *)
Theorem scheduling_names_once (sub : SubPasses) (m m1 m2 : Model) (l : Locals)
    (ctx : PassContext) :
  run_on_model sub m = (Returns true, m2) →
  upto_passes sub m = (Next (l, ctx), m1) →
  (∀ name r, name ∈ scheduling_names → r ∈ m_parameters m1 ++ kv_parameters ctx →
             name ∉ get_names m1 r) →
  let n := length (nodes m) in
  get_names m1 <$> [n; n + 1; n + 2; n + 3; n + 4]
    = (λ x, [x]) <$> scheduling_names →
  synthesize m
    = (Next (n, [n + 1; n + 2; n + 3; n + 4], n + 5),
       with_nodes m (nodes m ++ synthesized))
  ∧ ∀ name, name ∈ scheduling_names → count_name m2 name = 1.
Proof.
  intros H Hup Hfree n Hkept. split; [apply synthesize_eq|]. intros name Hname.
  apply success_inv in H as (l' & ctx' & m1' & p & Hup' & _ & _ & ->).
  apply upto_beam_idx_inv in Hup' as (m' & Hup' & Hnodes & Hsub).
  rewrite Hup in Hup'. inversion Hup'; subst l' ctx' m'. clear Hup'.
  apply upto_passes_inv in Hup as (m0 & Hpro & _).
  apply prologue_inv in Hpro as (_ & _ & _ & _ & _ & _ & Hmcl & Hrem & _).
  unfold count_name, get_names. simpl. rewrite Hnodes, Hmcl, Hrem.
  change (λ r, name ∈ from_option tensor_names [] (nodes m1 !! r))
    with (λ r, name ∈ get_names m1 r).
  rewrite !filter_app, !length_app.
  rewrite (filter_none _ (filter _ _)), (filter_none _ (kv_parameters ctx)).
  - simpl. rewrite <- length_app, <- filter_app.
    by apply (count_among_five name (get_names m1) n).
  - intros r Hr. apply Hfree; [done|]. apply elem_of_app. by right.
  - intros r Hr. apply Hfree; [done|]. apply elem_of_app. left.
    apply list_elem_of_filter in Hr as [_ Hr].
    apply list_elem_of_filter in Hr as [_ Hr].
    by eapply elem_of_sublist.
Qed.

Lemma scheduling_names_once_witness :
  (run_on_model Samples.passes Samples.stateful).1 = Returns true
  ∧ Forall (λ name, count_name (run_on_model Samples.passes Samples.stateful).2 name = 1)
           scheduling_names.
Proof.
  split; [vm_compute; reflexivity|].
  apply Forall_forall.
  unshelve eapply (proj2 (scheduling_names_once Samples.passes Samples.stateful
                            _ _ _ _ _ _ _ _)).
  5: vm_compute; reflexivity.
  all: try (vm_compute; reflexivity).
  intros name r Hname Hr. revert r Hr. apply Forall_forall.
  revert name Hname. apply Forall_forall.
  apply (bool_decide_unpack _). vm_compute. exact I.
Defined.

(** C8, as stated, fails: a graph that already has an input called
    [context_lens] comes out of a successful run with two Parameters of that
    name. *)
Lemma scheduling_name_twice :
  ∃ m2, run_on_model Samples.idle Samples.named_context_lens = (Returns true, m2)
        ∧ "context_lens" ∈ scheduling_names
        ∧ count_name m2 "context_lens" = 2.
Proof.
  eexists. split; [vm_compute; reflexivity|]. split.
  - apply (bool_decide_unpack _). vm_compute. exact I.
  - vm_compute; reflexivity.
Qed.

(** ** Rewiring *)

Lemma rewire_other (t u : node_ref) (nd : Node) :
  t ∉ node_inputs nd → rewire t u nd = nd.
Proof.
  intros Ht. destruct nd as [o ins f ns]. unfold rewire. simpl in *. f_equal.
  induction ins as [|x ins IH]; [done|].
  apply not_elem_of_cons in Ht as [Hx Hins]. simpl.
  rewrite decide_False by done. f_equal. by apply IH.
Qed.

Lemma rewire_lookup (p u : node_ref) (nd : Node) (k : nat) :
  node_inputs nd !! k = Some p → node_inputs (rewire p u nd) !! k = Some u.
Proof.
  intros H. unfold rewire. simpl. rewrite list_lookup_fmap, H. simpl.
  by rewrite decide_True.
Qed.

Lemma rewire_not_in (p u : node_ref) (nd : Node) :
  u ≠ p → p ∉ node_inputs (rewire p u nd).
Proof.
  intros Hne Hel. unfold rewire in Hel. simpl in Hel.
  apply list_elem_of_fmap in Hel as (x & Hx & _). by case_decide.
Qed.

Lemma lookup_redirect (t u : node_ref) (ns : list Node) (j : nat) :
  redirect t u ns !! j
  = (λ nd, if decide (j = u) then nd else rewire t u nd) <$> ns !! j.
Proof. unfold redirect. apply list_lookup_imap. Qed.

Lemma lookup_redirect_ne (t u : node_ref) (ns : list Node) (j : nat) :
  j ≠ u → redirect t u ns !! j = rewire t u <$> ns !! j.
Proof.
  intros H. rewrite lookup_redirect. destruct (ns !! j); simpl; [|done].
  by rewrite decide_False.
Qed.

Lemma lookup_redirect_eq (t u : node_ref) (ns : list Node) :
  redirect t u ns !! u = ns !! u.
Proof.
  rewrite lookup_redirect. unfold node_ref in *.
  destruct (ns !! u); simpl; [|done]. by rewrite decide_True.
Qed.

Lemma length_redirect (t u : node_ref) (ns : list Node) :
  length (redirect t u ns) = length ns.
Proof. apply length_imap. Qed.

Lemma inserted_by_redirect (m m' : Model) (base : list Node) (p : node_ref)
    (k u : nat) :
  length base = k → u = k + 1 → (length (nodes m) ≤ k)%nat → (p ≤ k)%nat →
  (∀ c nd, nodes m !! c = Some nd →
     ∃ nd0, base !! c = Some nd0 ∧ node_inputs nd0 = node_inputs nd) →
  nodes m'
  = redirect p u (base ++ [mkNode (v0_Constant i32 [] [1%Z]) [] "" [];
                           mkNode v0_Unsqueeze [p; k] "" []]) →
  inserted m m' p u.
Proof.
  intros Hk Hu Hlen Hp Hbase Hm'. unfold node_ref in *. subst u.
  split; [apply lookup_ge_None; lia|]. split; [|split].
  - exists k. rewrite Hm'. split.
    + rewrite lookup_redirect_eq, lookup_app_r by lia.
      by replace (k + 1 - length base) with 1 by lia.
    + rewrite lookup_redirect_ne, lookup_app_r by lia.
      by replace (k - length base) with 0 by lia.
  - intros c nd j Hc Hj. destruct (Hbase c nd Hc) as (nd0 & Hnd0 & Hins).
    assert (c < length base) as Hlt by by apply lookup_lt_Some in Hnd0.
    exists (rewire p (k + 1) nd0). rewrite Hm'. split.
    + rewrite lookup_redirect_ne by lia.
      by rewrite (lookup_app_l_Some _ _ _ _ Hnd0).
    + apply rewire_lookup. by rewrite Hins.
  - intros c nd Hc Hel. destruct (decide (c = k + 1)) as [|Hne]; [done|].
    rewrite Hm', lookup_redirect_ne in Hc by done.
    apply fmap_Some in Hc as (x & _ & ->).
    apply rewire_not_in in Hel; [done|lia].
Qed.

(** ** What the input adapters and lines 47-51 do to the store *)

Lemma expand_eq (p : node_ref) (m : Model) :
  let n := length (nodes m) in
  (axis ← Constant_create i32 [] [1%Z];
   u ← make_shared v0_Unsqueeze [p; axis];
   replace_node p u;; mret u) m
  = (Next (n + 1),
     with_nodes m
       (redirect p (n + 1)
          (nodes m ++ [mkNode (v0_Constant i32 [] [1%Z]) [] "" [];
                       mkNode v0_Unsqueeze [p; n] "" []]))).
Proof.
  intros n. unfold Constant_create, make_shared, replace_node. munfold. simpl.
  rewrite length_app, with_nodes_twice, <- app_assoc. simpl. by fold n.
Qed.

Lemma adapt_input_ids_eq (m : Model) (i : node_ref) :
  input m "input_ids" = Some i → as_Parameter m i = Some i →
  let n := length (nodes m) in
  adapt_input_ids m
  = (Next (n + 1),
     with_nodes m
       (redirect i (n + 1)
          (alter (reshape [(-1)%Z]) i (nodes m)
           ++ [mkNode (v0_Constant i32 [] [1%Z]) [] "" [];
               mkNode v0_Unsqueeze [i; n] "" []]))).
Proof.
  intros Hin Hi n. unfold adapt_input_ids.
  assert (model_input "input_ids" m = (Next i, m)) as H1
    by (unfold model_input; by rewrite Hin).
  rewrite (bind_Next _ _ _ _ _ H1).
  assert (dynamic_pointer_cast_Parameter i m = (Next (Some i), m)) as H2
    by (unfold dynamic_pointer_cast_Parameter; by rewrite Hi).
  rewrite (bind_Next _ _ _ _ _ H2).
  assert (arrow (Some i) m = (Next i, m)) as H3 by done.
  rewrite (bind_Next _ _ _ _ _ H3).
  assert (set_partial_shape i [(-1)%Z] m
          = (Next tt, with_nodes m (alter (reshape [(-1)%Z]) i (nodes m)))) as H4
    by done.
  rewrite (bind_Next _ _ _ _ _ H4).
  rewrite expand_eq. simpl. by rewrite length_alter.
Qed.

Lemma make_prev_max_seq_len_eq (mcl u : node_ref) (m : Model) :
  let n := length (nodes m) in
  make_prev_max_seq_len mcl u m
  = (Next (n + 5),
     with_nodes m
       (nodes m ++ [ mkNode v3_ShapeOf [u] "" [];
                     mkNode (v0_Constant i64 [] [1%Z]) [] "" [];
                     mkNode (v0_Constant i64 [] [0%Z]) [] "" [];
                     mkNode v8_Gather [n; n + 1; n + 2] "" [];
                     mkNode (v0_Convert i32) [n + 3] "" [];
                     mkNode v1_Subtract [mcl; n + 4] "" [] ])).
Proof.
  intros n. unfold make_prev_max_seq_len, Constant_create, make_shared. munfold.
  simpl. rewrite !length_app, !with_nodes_twice. simpl.
  rewrite <- !app_assoc. simpl. fold n. by rewrite <- !Nat.add_assoc.
Qed.

Lemma adapt_position_ids_absent (m : Model) :
  input m "position_ids" = None →
  let n := length (nodes m) in
  adapt_position_ids m
  = (Next (n + 2),
     mkModel
       (redirect n (n + 2)
          (nodes m
           ++ [ mkNode (v0_Parameter i64 [(-1)%Z]) [] "position_ids"
                       ["position_ids"];
                mkNode (v0_Constant i32 [] [1%Z]) [] "" [];
                mkNode v0_Unsqueeze [n; n + 1] "" [] ]))
       (m_parameters m ++ [n]) (m_results m) (m_sinks m)).
Proof.
  intros Hin n. unfold adapt_position_ids.
  assert (has_parameter_ "position_ids" m = (Next false, m)) as H1.
  { unfold has_parameter_. rewrite has_parameter_input, Hin.
    by rewrite bool_decide_eq_false_2 by by intros [??]. }
  rewrite (bind_Next _ _ _ _ _ H1). simpl.
  match goal with |- (?c ≫= _) _ = _ =>
    assert (c m = (Next n,
                   mkModel (nodes m ++ [mkNode (v0_Parameter i64 [(-1)%Z]) []
                                               "position_ids" ["position_ids"]])
                           (m_parameters m ++ [n]) (m_results m) (m_sinks m))) as H2
  end.
  { rewrite (bind_Next _ _ _ _ _ (named_Parameter_eq _ _ _ _)). done. }
  rewrite (bind_Next _ _ _ _ _ H2). rewrite expand_eq. simpl.
  rewrite length_app, <- app_assoc. simpl. fold n.
  by rewrite <- !Nat.add_assoc.
Qed.

Lemma adapt_position_ids_parameter (m : Model) (p : node_ref) :
  input m "position_ids" = Some p → as_Parameter m p = Some p →
  let n := length (nodes m) in
  adapt_position_ids m
  = (Next (n + 1),
     with_nodes m
       (redirect p (n + 1)
          (alter (reshape [(-1)%Z]) p (nodes m)
           ++ [mkNode (v0_Constant i32 [] [1%Z]) [] "" [];
               mkNode v0_Unsqueeze [p; n] "" []]))).
Proof.
  intros Hin Hp n. unfold adapt_position_ids.
  assert (has_parameter_ "position_ids" m = (Next true, m)) as H1.
  { unfold has_parameter_. rewrite has_parameter_input, Hin.
    by rewrite bool_decide_eq_true_2 by eauto. }
  rewrite (bind_Next _ _ _ _ _ H1). simpl.
  match goal with |- (?c ≫= _) _ = _ =>
    assert (c m = (Next p, with_nodes m (alter (reshape [(-1)%Z]) p (nodes m))))
      as H2
  end.
  { unfold model_input, dynamic_pointer_cast_Parameter. munfold.
    rewrite Hin. simpl. by rewrite Hp. }
  rewrite (bind_Next _ _ _ _ _ H2). rewrite expand_eq. simpl.
  by rewrite length_alter.
Qed.

Lemma adapt_position_ids_other (m : Model) (o : node_ref) :
  input m "position_ids" = Some o → as_Parameter m o = None →
  adapt_position_ids m = (NullDeref, m).
Proof.
  intros Hin Ho. unfold adapt_position_ids.
  assert (has_parameter_ "position_ids" m = (Next true, m)) as H1.
  { unfold has_parameter_. rewrite has_parameter_input, Hin.
    by rewrite bool_decide_eq_true_2 by eauto. }
  rewrite (bind_Next _ _ _ _ _ H1). simpl.
  unfold model_input, dynamic_pointer_cast_Parameter. munfold.
  rewrite Hin. simpl. by rewrite Ho.
Qed.

(** ** Lookups across edits of the store *)

Lemma preserved_refl (ns : list Node) : preserved ns ns.
Proof. intros r a H. eauto. Qed.

Lemma preserved_trans (ns1 ns2 ns3 : list Node) :
  preserved ns1 ns2 → preserved ns2 ns3 → preserved ns1 ns3.
Proof.
  intros H12 H23 r a Ha.
  destruct (H12 r a Ha) as (b & Hb & Hn & Hp).
  destruct (H23 r b Hb) as (c & Hc & Hn' & Hp').
  exists c. split; [done|]. split; congruence.
Qed.

Lemma preserved_app (ns extra : list Node) : preserved ns (ns ++ extra).
Proof. intros r a H. exists a. split; [by apply lookup_app_l_Some|done]. Qed.

Lemma reshape_face (ps : PartialShape) (nd : Node) :
  tensor_names (reshape ps nd) = tensor_names nd
  ∧ is_Parameter (reshape ps nd) = is_Parameter nd.
Proof. unfold reshape, is_Parameter. by destruct (node_op nd) eqn:E; simpl; rewrite ?E. Qed.

Lemma preserved_reshape (ps : PartialShape) (i : node_ref) (ns : list Node) :
  preserved ns (alter (reshape ps) i ns).
Proof.
  intros r a H. destruct (decide (i = r)) as [->|Hne].
  - exists (reshape ps a). rewrite list_lookup_alter_eq, H.
    split; [done|]. apply reshape_face.
  - exists a. by rewrite list_lookup_alter_ne.
Qed.

Lemma preserved_redirect (t u : node_ref) (ns : list Node) :
  preserved ns (redirect t u ns).
Proof.
  intros r a H. exists (if decide (r = u) then a else rewire t u a).
  rewrite lookup_redirect, H. split; [done|]. by case_decide.
Qed.

Lemma preserved_get_names (m m' : Model) (r : node_ref) :
  preserved (nodes m) (nodes m') → r < length (nodes m) →
  get_names m' r = get_names m r ∧ as_Parameter m' r = as_Parameter m r.
Proof.
  intros Hp Hr. apply lookup_lt_is_Some in Hr as [a Ha].
  destruct (Hp r a Ha) as (b & Hb & Hn & Hk).
  unfold get_names, as_Parameter, node_ref in *. rewrite Ha, Hb. simpl.
  by rewrite Hn, Hk.
Qed.

Lemma find_agree {A : Type} (f g : A → bool) (l : list A) :
  Forall (λ x, f x = g x) l → find f l = find g l.
Proof.
  induction 1 as [|x l Hx _ IH]; [done|]. simpl. by rewrite Hx, IH.
Qed.

Lemma preserved_input (m m' : Model) (name : string) :
  preserved (nodes m) (nodes m') → m_parameters m' = m_parameters m →
  params_alive m → input m' name = input m name.
Proof.
  intros Hp Hps Halive. unfold input, inputs. rewrite Hps.
  apply find_agree. eapply Forall_impl; [exact Halive|].
  intros r Hr. unfold has_name. simpl in Hr.
  by destruct (preserved_get_names m m' r Hp Hr) as [-> _].
Qed.

Lemma input_alive (m : Model) (name : string) (r : node_ref) :
  params_alive m → input m name = Some r → r < length (nodes m).
Proof.
  intros Halive Hin. apply input_elem_of in Hin as [Hin _].
  unfold params_alive in Halive. rewrite Forall_forall in Halive. by apply Halive.
Qed.

(** ** The state at line 69 *)

Lemma preserved_store_at_line_69 (m : Model) (i : node_ref) :
  preserved (nodes m) (store_at_line_69 m i).
Proof.
  unfold store_at_line_69.
  eapply preserved_trans; [|apply preserved_app].
  eapply preserved_trans; [|apply preserved_redirect].
  eapply preserved_trans; [|apply preserved_app].
  eapply preserved_trans; [|apply preserved_reshape].
  apply preserved_app.
Qed.

Lemma prologue_eq (m : Model) (i : node_ref) :
  params_alive m → input m "input_ids" = Some i → as_Parameter m i = Some i →
  let n := length (nodes m) in
  prologue m
  = (adapt_position_ids ≫= λ v,
       mret (mkLocals n [n + 1; n + 2; n + 3; n + 4] (n + 5) (n + 7) (n + 13) v))
      (with_nodes m (store_at_line_69 m i)).
Proof.
  intros Halive Hin Hi n. unfold prologue.
  rewrite (bind_Next _ _ _ _ _ (synthesize_eq m)). simpl. fold n.
  set (ms := with_nodes m (nodes m ++ synthesized)).
  assert (i < length (nodes m)) as Hlt by by eapply input_alive.
  assert (preserved (nodes m) (nodes ms)) as Hp by apply preserved_app.
  assert (input ms "input_ids" = Some i) as Hin'
    by by rewrite (preserved_input m ms _ Hp eq_refl Halive).
  assert (as_Parameter ms i = Some i) as Hi'.
  { destruct (preserved_get_names m ms i Hp Hlt) as [_ ->]. done. }
  rewrite (bind_Next _ _ _ _ _ (adapt_input_ids_eq ms i Hin' Hi')).
  rewrite (bind_Next _ _ _ _ _ (make_prev_max_seq_len_eq _ _ _)).
  unfold ms, store_at_line_69. simpl.
  rewrite !length_redirect, !length_app, !length_alter, !length_app. simpl. fold n.
  rewrite !with_nodes_twice.
  replace (n + 6 + 1) with (n + 7) by lia.
  replace (n + 6 + 2) with (n + 8) by lia.
  replace (n + 8 + 1) with (n + 9) by lia.
  replace (n + 8 + 2) with (n + 10) by lia.
  replace (n + 8 + 3) with (n + 11) by lia.
  replace (n + 8 + 4) with (n + 12) by lia.
  replace (n + 8 + 5) with (n + 13) by lia.
  done.
Qed.

Lemma adapt_input_ids_inv (m m' : Model) (u : node_ref) :
  adapt_input_ids m = (Next u, m') →
  ∃ i, input m "input_ids" = Some i ∧ as_Parameter m i = Some i.
Proof.
  intros H. unfold adapt_input_ids in H.
  apply bind_inv_Next in H as (o & m1 & Ho & H).
  unfold model_input in Ho. destruct (input m "input_ids") as [i|] eqn:Hin; [|done].
  inversion Ho; subst o m1. clear Ho.
  apply bind_inv_Next in H as (c & m1 & Hc & H).
  unfold dynamic_pointer_cast_Parameter in Hc. inversion Hc; subst c m1. clear Hc.
  apply bind_inv_Next in H as (p & m1 & Hp & _).
  exists i. split; [done|].
  destruct (as_Parameter_cases m i) as [Hi|Hi]; [done|]. by rewrite Hi in Hp.
Qed.

(** C10. Whenever line 69 finds the name [position_ids] bound to a node
    that is not a Parameter, the downcast of line 74 yields null and line 75
    dereferences it: lines 73-76 have no [return false].  In particular, on a
    graph with live handles whose [input_ids] is a Parameter, the run ends
    at line 75 with the null dereference, before any sub-pass has run; it
    can only go on when an existing [position_ids] is a Parameter. *)
Theorem position_ids_not_parameter :
  (∀ m o, input m "position_ids" = Some o → as_Parameter m o = None →
          adapt_position_ids m = (NullDeref, m))
  ∧ (∀ sub m i o,
       params_alive m →
       input m "input_ids" = Some i → as_Parameter m i = Some i →
       input m "position_ids" = Some o → as_Parameter m o = None →
       run_on_model sub m = (NullDeref, with_nodes m (store_at_line_69 m i))).
Proof.
  split; [apply adapt_position_ids_other|].
  intros sub m i o Halive Hin Hi Hpos Ho.
  set (mb := with_nodes m (store_at_line_69 m i)).
  assert (preserved (nodes m) (nodes mb)) as Hp
    by apply preserved_store_at_line_69.
  assert (adapt_position_ids mb = (NullDeref, mb)) as Hcrash.
  { apply (adapt_position_ids_other mb o).
    - by rewrite (preserved_input m mb _ Hp eq_refl Halive).
    - assert (o < length (nodes m)) as Hlt by by eapply input_alive.
      by destruct (preserved_get_names m mb o Hp Hlt) as [_ ->]. }
  unfold run_on_model.
  assert (prologue m = (NullDeref, mb)) as Hpro.
  { rewrite (prologue_eq m i Halive Hin Hi).
    by rewrite (bind_escape _ _ _ _ _ Hcrash). }
  by rewrite (bind_escape _ _ _ _ _ Hpro).
Qed.

Lemma position_ids_not_parameter_witness :
  params_alive Samples.computed_position_ids
  ∧ input Samples.computed_position_ids "input_ids" = Some 0
  ∧ as_Parameter Samples.computed_position_ids 0 = Some 0
  ∧ input Samples.computed_position_ids "position_ids" = Some 2
  ∧ as_Parameter Samples.computed_position_ids 2 = None
  ∧ (run_on_model Samples.passes Samples.computed_position_ids).1 = NullDeref.
Proof.
  assert (params_alive Samples.computed_position_ids) as Halive.
  { unfold params_alive. apply (bool_decide_unpack _). vm_compute. exact I. }
  split; [exact Halive|]. split; [vm_compute; reflexivity|].
  split; [vm_compute; reflexivity|]. split; [vm_compute; reflexivity|].
  split; [vm_compute; reflexivity|].
  unshelve erewrite (proj2 position_ids_not_parameter Samples.passes
                       Samples.computed_position_ids 0 2 Halive _ _ _ _);
    try (vm_compute; reflexivity).
Defined.

(** ** What line 79 leaves of the store *)

Lemma adapt_position_ids_frame (m m' : Model) (u : node_ref) :
  adapt_position_ids m = (Next u, m') →
  ∃ p, (p = length (nodes m) ∨ p ∈ m_parameters m)
       ∧ ∀ j nd, nodes m !! j = Some nd → j ≠ p →
                 nodes m' !! j = Some (rewire p u nd).
Proof.
  intros H. destruct (input m "position_ids") as [p|] eqn:Hin.
  - destruct (as_Parameter_cases m p) as [Hp|Hp].
    + rewrite (adapt_position_ids_parameter m p Hin Hp) in H.
      inversion H; subst u m'. clear H. exists p. split.
      { right. by apply input_elem_of in Hin as [? _]. }
      intros j nd Hj Hne. simpl.
      assert (j < length (nodes m)) as Hlt by by apply lookup_lt_Some in Hj.
      rewrite lookup_redirect_ne by lia.
      rewrite lookup_app_l by (rewrite length_alter; done).
      by rewrite list_lookup_alter_ne, Hj.
    + by rewrite (adapt_position_ids_other m p Hin Hp) in H.
  - rewrite (adapt_position_ids_absent m Hin) in H.
    inversion H; subst u m'. clear H. exists (length (nodes m)). split; [by left|].
    intros j nd Hj Hne. simpl.
    assert (j < length (nodes m)) as Hlt by by apply lookup_lt_Some in Hj.
    rewrite lookup_redirect_ne by lia.
    by rewrite (lookup_app_l_Some _ _ _ _ Hj).
Qed.

Lemma store_at_line_69_new (m : Model) (i : node_ref) (k : nat) (nd : Node) :
  let n := length (nodes m) in
  [ mkNode v3_ShapeOf [n + 7] "" [];
    mkNode (v0_Constant i64 [] [1%Z]) [] "" [];
    mkNode (v0_Constant i64 [] [0%Z]) [] "" [];
    mkNode v8_Gather [n + 8; n + 9; n + 10] "" [];
    mkNode (v0_Convert i32) [n + 11] "" [];
    mkNode v1_Subtract [n; n + 12] "" [] ] !! k = Some nd →
  store_at_line_69 m i !! (n + 8 + k) = Some nd.
Proof.
  intros n H. unfold store_at_line_69. fold n.
  rewrite lookup_app_r.
  - rewrite length_redirect, length_app, length_alter, length_app. simpl. fold n.
    by replace (n + 8 + k - (n + 6 + 2)) with k by lia.
  - rewrite length_redirect, length_app, length_alter, length_app. simpl. lia.
Qed.

Lemma store_at_line_69_unsqueeze (m : Model) (i : node_ref) :
  let n := length (nodes m) in
  store_at_line_69 m i !! (n + 7) = Some (mkNode v0_Unsqueeze [i; n + 6] "" [])
  ∧ store_at_line_69 m i !! (n + 6)
    = Some (mkNode (v0_Constant i32 [] [1%Z]) [] "" []).
Proof.
  intros n. unfold store_at_line_69. fold n.
  assert (length (alter (reshape [(-1)%Z]) i (nodes m ++ synthesized)) = n + 6)
    as Hlen by by rewrite length_alter, length_app.
  split.
  - rewrite lookup_app_l
      by (rewrite length_redirect, length_app, Hlen; simpl; lia).
    rewrite lookup_redirect_eq, lookup_app_r by lia. rewrite Hlen.
    by replace (n + 7 - (n + 6)) with 1 by lia.
  - rewrite lookup_app_l
      by (rewrite length_redirect, length_app, Hlen; simpl; lia).
    rewrite lookup_redirect_ne, lookup_app_r by lia. rewrite Hlen.
    by rewrite Nat.sub_diag.
Qed.

Lemma store_at_line_69_max_context_len (m : Model) (i : node_ref) :
  i < length (nodes m) →
  store_at_line_69 m i !! length (nodes m)
  = Some (mkNode (v0_Parameter i32 []) [] "max_context_len" ["max_context_len"]).
Proof.
  intros Hi. unfold store_at_line_69.
  rewrite lookup_app_l
    by (rewrite length_redirect, length_app, length_alter, length_app; simpl; lia).
  rewrite lookup_redirect_ne by lia.
  rewrite lookup_app_l by (rewrite length_alter, length_app; simpl; lia).
  rewrite list_lookup_alter_ne by lia.
  rewrite lookup_app_r by lia. by rewrite Nat.sub_diag.
Qed.

Lemma length_store_at_line_69 (m : Model) (i : node_ref) :
  length (store_at_line_69 m i) = length (nodes m) + 14.
Proof.
  unfold store_at_line_69.
  rewrite length_app, length_redirect, length_app, length_alter, length_app.
  simpl. lia.
Qed.

(** ** The adaptation of [position_ids] *)

Lemma reshape_inputs (ps : PartialShape) (nd : Node) :
  node_inputs (reshape ps nd) = node_inputs nd.
Proof. unfold reshape. by destruct (node_op nd). Qed.

Lemma as_Parameter_Some (m : Model) (p : node_ref) :
  as_Parameter m p = Some p →
  ∃ nd et ps, nodes m !! p = Some nd ∧ node_op nd = v0_Parameter et ps.
Proof.
  unfold as_Parameter, is_Parameter. destruct (nodes m !! p) as [nd|]; [|done].
  destruct (node_op nd) eqn:E; try done. eauto.
Qed.

(** ** The node handed over as [prev_max_seq_len] *)

Lemma adapt_position_ids_effect (m m' : Model) (u : node_ref) :
  adapt_position_ids m = (Next u, m') →
  ∃ p, ((input m "position_ids" = None ∧ p = length (nodes m))
        ∨ (input m "position_ids" = Some p ∧ p ∈ m_parameters m))
       ∧ expands m' u p
       ∧ preserved (nodes m) (nodes m')
       ∧ ∀ j nd, nodes m !! j = Some nd → j ≠ p →
                 nodes m' !! j = Some (rewire p u nd).
Proof.
  intros H. destruct (input m "position_ids") as [p|] eqn:Hin.
  - destruct (as_Parameter_cases m p) as [Hp|Hp];
      [|by rewrite (adapt_position_ids_other m p Hin Hp) in H].
    rewrite (adapt_position_ids_parameter m p Hin Hp) in H.
    inversion H as [[Hu Hm']]. clear H. subst u.
    destruct (as_Parameter_Some m p Hp) as (nd & et & ps & Hnd & Hop).
    unfold node_ref in *.
    assert (p < length (nodes m)) as Hlt by by apply lookup_lt_Some in Hnd.
    assert (inserted m m' p (length (nodes m) + 1)) as (_ & Hex & _).
    { apply (inserted_by_redirect m m' (alter (reshape [(-1)%Z]) p (nodes m))
               p (length (nodes m)) (length (nodes m) + 1)).
      - apply length_alter.
      - done.
      - done.
      - lia.
      - intros c nd0 Hc. destruct (decide (p = c)) as [->|Hne].
        + exists (reshape [(-1)%Z] nd0). rewrite list_lookup_alter_eq, Hc.
          split; [done|apply reshape_inputs].
        + exists nd0. by rewrite list_lookup_alter_ne.
      - by rewrite <- Hm'. }
    exists p. split; [right; split; [done|by apply input_elem_of in Hin as [? _]]|].
    rewrite Hm'. split; [done|]. rewrite <- Hm'. simpl. split.
    + eapply preserved_trans; [|apply preserved_redirect].
      eapply preserved_trans; [|apply preserved_app]. apply preserved_reshape.
    + intros j nd0 Hj Hne.
      assert (j < length (nodes m)) as Hjlt by by apply lookup_lt_Some in Hj.
      rewrite lookup_redirect_ne by lia.
      rewrite lookup_app_l by (rewrite length_alter; done).
      by rewrite list_lookup_alter_ne, Hj.
  - rewrite (adapt_position_ids_absent m Hin) in H.
    inversion H as [[Hu Hm']]. clear H. subst u. unfold node_ref in *.
    assert (inserted m m' (length (nodes m)) (length (nodes m) + 2))
      as (_ & Hex & _).
    { apply (inserted_by_redirect m m'
               (nodes m ++ [mkNode (v0_Parameter i64 [(-1)%Z]) [] "position_ids"
                                   ["position_ids"]])
               (length (nodes m)) (length (nodes m) + 1) (length (nodes m) + 2)).
      - rewrite length_app. done.
      - lia.
      - lia.
      - lia.
      - intros c nd Hc. exists nd. split; [by apply lookup_app_l_Some|done].
      - rewrite <- Hm'. simpl. by rewrite <- app_assoc. }
    exists (length (nodes m)). split; [by left|].
    rewrite Hm'. split; [done|]. rewrite <- Hm'. simpl. split.
    + eapply preserved_trans; [|apply preserved_redirect]. apply preserved_app.
    + intros j nd Hj Hne.
      assert (j < length (nodes m)) as Hjlt by by apply lookup_lt_Some in Hj.
      rewrite lookup_redirect_ne by lia.
      by rewrite (lookup_app_l_Some _ _ _ _ Hj).
Qed.

(** C4. On a graph with live handles whose input [input_ids] is a Parameter
    (and whose input [position_ids], if there is one, is a Parameter too),
    lines 31-79 complete and the node handed over as [prev_max_seq_len] is
    [Subtract(max_context_len, Convert_i32(Gather(ShapeOf(u), 1, 0)))]:
    [max_context_len] is the synthesized scalar Parameter and [u] is the
    Unsqueeze along axis 1 that reads the [input_ids] Parameter, so the
    Gather takes entry 1 of the shape of the expanded [input_ids], and that
    is taken away from [max_context_len].  (When the same Parameter also
    carries the name [position_ids], line 79 puts the Unsqueeze of
    [position_ids] between [u] and the Parameter.)  [run_on_model] reaches
    line 99 having given that handle to [PrevSequenceLengthPattern], after
    [StateManagementPattern] and before the other two passes, and goes on
    from the graph they leave. *)
Theorem prev_max_seq_len_shape (sub : SubPasses) (m : Model) (i : node_ref) :
  params_alive m →
  input m "input_ids" = Some i → as_Parameter m i = Some i →
  (∀ o, input m "position_ids" = Some o → as_Parameter m o = Some o) →
  ∃ l m0 ctx m1 converted cur_seq_len shape index axis,
    prologue m = (Next l, m0)
    ∧ nodes m0 !! prev_max_seq_len l
      = Some (mkNode v1_Subtract [max_context_len l; converted] "" [])
    ∧ nodes m0 !! max_context_len l
      = Some (mkNode (v0_Parameter i32 []) [] "max_context_len" ["max_context_len"])
    ∧ nodes m0 !! converted = Some (mkNode (v0_Convert i32) [cur_seq_len] "" [])
    ∧ nodes m0 !! cur_seq_len = Some (mkNode v8_Gather [shape; index; axis] "" [])
    ∧ nodes m0 !! index = Some (mkNode (v0_Constant i64 [] [1%Z]) [] "" [])
    ∧ nodes m0 !! axis = Some (mkNode (v0_Constant i64 [] [0%Z]) [] "" [])
    ∧ nodes m0 !! shape = Some (mkNode v3_ShapeOf [unsqueezed_input_ids l] "" [])
    ∧ as_Parameter m0 i = Some i
    ∧ "input_ids" ∈ get_names m0 i
    ∧ (input m "position_ids" ≠ Some i → expands m0 (unsqueezed_input_ids l) i)
    ∧ (input m "position_ids" = Some i →
         expands m0 (unsqueezed_input_ids l) (unsqueezed_position_ids l)
         ∧ expands m0 (unsqueezed_position_ids l) i)
    ∧ StateManagementPattern sub (model_remaining_params l) (sliding_window l)
        (max_context_len l) (mkPassContext [] [] [] 0%Z) m0 = (ctx, m1)
    ∧ upto_passes sub m
      = (Next (l, ctx),
         PositionIDsReplacer sub (unsqueezed_position_ids l)
           (TotalSequenceLengthPattern sub (max_context_len l)
              (PrevSequenceLengthPattern sub (prev_max_seq_len l) m1)))
    ∧ run_on_model sub m
      = (remove_beam_idx;; from_attention_mask l ctx)
          (PositionIDsReplacer sub (unsqueezed_position_ids l)
             (TotalSequenceLengthPattern sub (max_context_len l)
                (PrevSequenceLengthPattern sub (prev_max_seq_len l) m1))).
Proof.
  intros Halive Hin Hi Hpos.
  set (n := length (nodes m)).
  assert (i < n) as Hlt by by eapply input_alive.
  set (mb := with_nodes m (store_at_line_69 m i)).
  assert (preserved (nodes m) (nodes mb)) as Hpres
    by apply preserved_store_at_line_69.
  assert (length (nodes mb) = n + 14) as Hlen by apply length_store_at_line_69.
  assert (input mb "position_ids" = input m "position_ids") as Hq
    by exact (preserved_input m mb _ Hpres eq_refl Halive).
  assert (∃ u m0, adapt_position_ids mb = (Next u, m0)) as (u & m0 & Hu).
  { destruct (input m "position_ids") as [q|] eqn:Hq'.
    - assert (q < n) as Hqlt by by eapply input_alive.
      assert (as_Parameter mb q = Some q) as Hq''.
      { destruct (preserved_get_names m mb q Hpres Hqlt) as [_ ->]. by apply Hpos. }
      eexists _, _. by apply adapt_position_ids_parameter.
    - eexists _, _. by apply adapt_position_ids_absent. }
  destruct (adapt_position_ids_effect mb m0 u Hu)
    as (p & Hcase & Hex & Hpres' & Hframe).
  rewrite Hq in Hcase.
  assert (p < n ∨ p = n + 14) as Hrange.
  { destruct Hcase as [[_ ->]|[_ Hel]]; [by right|left].
    unfold params_alive in Halive. rewrite Forall_forall in Halive.
    by apply Halive. }
  set (l := mkLocals n [n + 1; n + 2; n + 3; n + 4] (n + 5) (n + 7) (n + 13) u).
  assert (prologue m = (Next l, m0)) as Hpro.
  { rewrite (prologue_eq m i Halive Hin Hi). fold n mb.
    by rewrite (bind_Next _ _ _ _ _ Hu). }
  destruct (StateManagementPattern sub (model_remaining_params l)
              (sliding_window l) (max_context_len l)
              (mkPassContext [] [] [] 0%Z) m0) as [ctx m1] eqn:Hsm.
  assert (run_passes sub l m0
          = (Next ctx,
             PositionIDsReplacer sub (unsqueezed_position_ids l)
               (TotalSequenceLengthPattern sub (max_context_len l)
                  (PrevSequenceLengthPattern sub (prev_max_seq_len l) m1))))
    as Hrun by (unfold run_passes; by rewrite Hsm).
  assert (upto_passes sub m
          = (Next (l, ctx),
             PositionIDsReplacer sub (unsqueezed_position_ids l)
               (TotalSequenceLengthPattern sub (max_context_len l)
                  (PrevSequenceLengthPattern sub (prev_max_seq_len l) m1))))
    as Hupto.
  { unfold upto_passes. rewrite (bind_Next _ _ _ _ _ Hpro).
    by rewrite (bind_Next _ _ _ _ _ Hrun). }
  assert (∀ (j : nat) nd, store_at_line_69 m i !! j = Some nd →
                  (n ≤ j)%nat → j < n + 14 →
                  Forall (λ x : nat, (n ≤ x)%nat ∧ x < n + 14) (node_inputs nd) →
                  nodes m0 !! j = Some nd) as Hkeep.
  { intros j nd Hj Hlo Hhi Hins.
    rewrite (Hframe j nd Hj) by lia. f_equal. apply rewire_other.
    intros Hel. rewrite Forall_forall in Hins. apply Hins in Hel. lia. }
  destruct (store_at_line_69_unsqueeze m i) as [Hunsq Haxis].
  fold n in Hunsq, Haxis.
  assert (nodes m0 !! (n + 6) = Some (mkNode (v0_Constant i32 [] [1%Z]) [] "" []))
    as Haxis' by (apply Hkeep; [done|lia|lia|by constructor]).
  assert (nodes m0 !! (n + 7)
          = Some (mkNode v0_Unsqueeze
                    [if decide (i = p) then u else i; n + 6] "" []))
    as Hunsq'.
  { rewrite (Hframe (n + 7) _ Hunsq) by lia. unfold rewire. simpl.
    by rewrite (decide_False (P := n + 6 = p)) by lia. }
  exists l, m0, ctx, m1, (n + 12), (n + 11), (n + 8), (n + 9), (n + 10).
  simpl.
  split; [exact Hpro|].
  split.
  { apply Hkeep; [|lia|lia|repeat constructor; lia].
    replace (n + 13) with (n + 8 + 5) by lia.
    by apply (store_at_line_69_new m i 5). }
  split.
  { apply Hkeep; [|lia|lia|by constructor].
    by apply store_at_line_69_max_context_len. }
  split.
  { apply Hkeep; [|lia|lia|repeat constructor; lia].
    replace (n + 12) with (n + 8 + 4) by lia.
    by apply (store_at_line_69_new m i 4). }
  split.
  { apply Hkeep; [|lia|lia|repeat constructor; lia].
    replace (n + 11) with (n + 8 + 3) by lia.
    by apply (store_at_line_69_new m i 3). }
  split.
  { apply Hkeep; [|lia|lia|by constructor].
    replace (n + 9) with (n + 8 + 1) by lia.
    by apply (store_at_line_69_new m i 1). }
  split.
  { apply Hkeep; [|lia|lia|by constructor].
    replace (n + 10) with (n + 8 + 2) by lia.
    by apply (store_at_line_69_new m i 2). }
  split.
  { apply Hkeep; [|lia|lia|repeat constructor; lia].
    replace (n + 8) with (n + 8 + 0) at 1 by lia.
    by apply (store_at_line_69_new m i 0). }
  assert (preserved (nodes m) (nodes m0)) as Hall
    by (eapply preserved_trans; [exact Hpres|exact Hpres']).
  destruct (preserved_get_names m m0 i Hall Hlt) as [Hnames Hparam].
  split; [by rewrite Hparam|].
  split; [rewrite Hnames; by apply input_elem_of in Hin as [_ ?]|].
  split.
  { intros Hne. rewrite decide_False in Hunsq'.
    - exists (n + 6). split; [exact Hunsq'|exact Haxis'].
    - intros ->. destruct Hcase as [[_ Hp]|[Hp _]]; [|done].
      rewrite Hlen in Hp. lia. }
  split.
  { intros Hsame. destruct Hcase as [[Hp _]|[Hp _]]; [congruence|].
    assert (p = i) as -> by congruence.
    split; [|exact Hex]. rewrite decide_True in Hunsq' by done.
    exists (n + 6). split; [exact Hunsq'|exact Haxis']. }
  split; [done|]. split; [exact Hupto|].
  rewrite run_on_model_from_passes. by rewrite (bind_Next _ _ _ _ _ Hupto).
Qed.

Lemma prev_max_seq_len_shape_witness :
  params_alive Samples.stateful
  ∧ input Samples.stateful "input_ids" = Some 0
  ∧ as_Parameter Samples.stateful 0 = Some 0
  ∧ input Samples.stateful "position_ids" = None
  ∧ ∃ l m0 ctx m1 converted cur_seq_len shape index axis,
      prologue Samples.stateful = (Next l, m0)
      ∧ nodes m0 !! prev_max_seq_len l
        = Some (mkNode v1_Subtract [max_context_len l; converted] "" [])
      ∧ nodes m0 !! converted = Some (mkNode (v0_Convert i32) [cur_seq_len] "" [])
      ∧ nodes m0 !! cur_seq_len = Some (mkNode v8_Gather [shape; index; axis] "" [])
      ∧ nodes m0 !! index = Some (mkNode (v0_Constant i64 [] [1%Z]) [] "" [])
      ∧ nodes m0 !! axis = Some (mkNode (v0_Constant i64 [] [0%Z]) [] "" [])
      ∧ nodes m0 !! shape = Some (mkNode v3_ShapeOf [unsqueezed_input_ids l] "" [])
      ∧ expands m0 (unsqueezed_input_ids l) 0
      ∧ upto_passes Samples.passes Samples.stateful
        = (Next (l, ctx),
           PositionIDsReplacer Samples.passes (unsqueezed_position_ids l)
             (TotalSequenceLengthPattern Samples.passes (max_context_len l)
                (PrevSequenceLengthPattern Samples.passes (prev_max_seq_len l) m1))).
Proof.
  assert (params_alive Samples.stateful) as Halive.
  { unfold params_alive. apply (bool_decide_unpack _). vm_compute. exact I. }
  assert (input Samples.stateful "input_ids" = Some 0) as Hin
    by (vm_compute; reflexivity).
  assert (as_Parameter Samples.stateful 0 = Some 0) as Hi
    by (vm_compute; reflexivity).
  assert (input Samples.stateful "position_ids" = None) as Hpos
    by (vm_compute; reflexivity).
  split; [exact Halive|]. split; [exact Hin|]. split; [exact Hi|].
  split; [exact Hpos|].
  destruct (prev_max_seq_len_shape Samples.passes Samples.stateful 0 Halive Hin Hi)
    as (l & m0 & ctx & m1 & converted & cur_seq_len & shape & index & axis
        & Hpro & H1 & _ & H2 & H3 & H4 & H5 & H6 & _ & _ & H7 & _ & _ & H8 & _).
  { intros o Ho. rewrite Hpos in Ho. discriminate Ho. }
  exists l, m0, ctx, m1, converted, cur_seq_len, shape, index, axis.
  split; [exact Hpro|]. split; [exact H1|]. split; [exact H2|].
  split; [exact H3|]. split; [exact H4|]. split; [exact H5|].
  split; [exact H6|]. split; [|exact H8].
  apply H7. rewrite Hpos. discriminate.
Defined.

(** C6. At line 69: when no input carries the name [position_ids], a new
    [i64] Parameter of shape [[-1]] with that name is created and appended
    to the Parameter list; when an input carries it and is a Parameter, no
    Parameter is created, the list stays as it is and the shape of that
    Parameter becomes [[-1]] (element type and names stay).  In both cases
    an Unsqueeze node is created that reads the [position_ids] Parameter
    and the axis constant 1, every input port that read the Parameter reads
    the Unsqueeze node afterwards, and the Unsqueeze node is the only
    reader of the Parameter that is left. *)
Theorem position_ids_adaptation (m : Model) :
  let n := length (nodes m) in
  (input m "position_ids" = None →
     ∃ m', adapt_position_ids m = (Next (n + 2), m')
       ∧ m_parameters m' = m_parameters m ++ [n]
       ∧ nodes m' !! n
         = Some (mkNode (v0_Parameter i64 [(-1)%Z]) [] "position_ids"
                        ["position_ids"])
       ∧ inserted m m' n (n + 2))
  ∧ (∀ p, input m "position_ids" = Some p → as_Parameter m p = Some p →
     ∃ m' nd nd' et ps,
       adapt_position_ids m = (Next (n + 1), m')
       ∧ m_parameters m' = m_parameters m
       ∧ length (nodes m') = n + 2
       ∧ nodes m !! p = Some nd ∧ nodes m' !! p = Some nd'
       ∧ node_op nd = v0_Parameter et ps
       ∧ node_op nd' = v0_Parameter et [(-1)%Z]
       ∧ tensor_names nd' = tensor_names nd
       ∧ inserted m m' p (n + 1)).
Proof.
  intros n. split.
  - intros Hin. eexists. split; [by apply adapt_position_ids_absent|]. fold n.
    simpl. split; [done|]. split.
    + rewrite lookup_redirect_ne by lia. rewrite lookup_app_r by done. fold n.
      by rewrite Nat.sub_diag.
    + apply (inserted_by_redirect m _
               (nodes m ++ [mkNode (v0_Parameter i64 [(-1)%Z]) [] "position_ids"
                                   ["position_ids"]]) n (n + 1) (n + 2)).
      * rewrite length_app. simpl. by fold n.
      * lia.
      * fold n. lia.
      * lia.
      * intros c nd Hc. exists nd. split; [by apply lookup_app_l_Some|done].
      * simpl. by rewrite <- app_assoc.
  - intros p Hin Hp.
    destruct (as_Parameter_Some m p Hp) as (nd & et & ps & Hnd & Hop).
    unfold node_ref in *.
    assert (p < n) as Hlt by by apply lookup_lt_Some in Hnd.
    eexists _, nd, (rewire p (n + 1) (reshape [(-1)%Z] nd)), et, ps.
    split; [by apply adapt_position_ids_parameter|]. fold n. simpl.
    split; [done|].
    split; [rewrite length_redirect, length_app, length_alter; simpl; by fold n|].
    split; [done|].
    split.
    { rewrite lookup_redirect_ne by lia.
      rewrite lookup_app_l by (rewrite length_alter; done).
      by rewrite list_lookup_alter_eq, Hnd. }
    split; [done|]. split; [unfold reshape; by rewrite Hop|].
    split; [unfold reshape; by rewrite Hop|].
    apply (inserted_by_redirect m _ (alter (reshape [(-1)%Z]) p (nodes m))
             p n (n + 1)).
    + apply length_alter.
    + done.
    + done.
    + lia.
    + intros c nd0 Hc. destruct (decide (p = c)) as [->|Hne].
      * exists (reshape [(-1)%Z] nd0). rewrite list_lookup_alter_eq, Hc.
        split; [done|apply reshape_inputs].
      * exists nd0. by rewrite list_lookup_alter_ne.
    + done.
Qed.

Lemma position_ids_adaptation_witness :
  (input Samples.stateful_at_line_69 "position_ids" = None
   ∧ ∃ m', adapt_position_ids Samples.stateful_at_line_69 = (Next 27, m')
           ∧ m_parameters m' = [0; 1; 2; 3; 25]
           ∧ inserted Samples.stateful_at_line_69 m' 25 27)
  ∧ (input Samples.with_position_ids_at_line_69 "position_ids" = Some 2
     ∧ as_Parameter Samples.with_position_ids_at_line_69 2 = Some 2
     ∧ ∃ m', adapt_position_ids Samples.with_position_ids_at_line_69 = (Next 26, m')
             ∧ m_parameters m' = [0; 1; 2; 3]
             ∧ inserted Samples.with_position_ids_at_line_69 m' 2 26).
Proof.
  set (absent := Samples.stateful_at_line_69).
  set (present := Samples.with_position_ids_at_line_69). split.
  - assert (input absent "position_ids" = None) as Hin by (vm_compute; reflexivity).
    split; [exact Hin|].
    destruct (proj1 (position_ids_adaptation absent) Hin)
      as (m' & Hrun & Hps & _ & Hins).
    exists m'. split; [exact Hrun|]. split; [exact Hps|exact Hins].
  - assert (input present "position_ids" = Some 2) as Hin
      by (vm_compute; reflexivity).
    assert (as_Parameter present 2 = Some 2) as Hp by (vm_compute; reflexivity).
    split; [exact Hin|]. split; [exact Hp|].
    destruct (proj2 (position_ids_adaptation present) 2 Hin Hp)
      as (m' & nd & nd' & et & ps & Hrun & Hps & _ & _ & _ & _ & _ & _ & Hins).
    exists m'. split; [exact Hrun|]. split; [exact Hps|exact Hins].
Defined.

(** ** The unchecked downcast of [input_ids] *)

Lemma input_ids_unchecked (sub : SubPasses) (m : Model) :
  params_alive m →
  let ms := with_nodes m (nodes m ++ synthesized) in
  (input m "input_ids" = None →
     run_on_model sub m
     = (Throws "input_ids", ms))
  ∧ (∀ o, input m "input_ids" = Some o → as_Parameter m o = None →
     run_on_model sub m = (NullDeref, ms)).
Proof.
  intros Halive ms.
  assert (preserved (nodes m) (nodes ms)) as Hp by apply preserved_app.
  assert (∀ s, escapes s → adapt_input_ids ms = (s, ms) →
               run_on_model sub m = (cast_signal s, ms)) as Hrun.
  { intros s Hs Hadapt. unfold run_on_model.
    assert (prologue m = (cast_signal s, ms)) as Hpro.
    { unfold prologue. rewrite (bind_Next _ _ _ _ _ (synthesize_eq m)). simpl.
      by rewrite (bind_escape _ _ _ _ _ Hadapt Hs). }
    rewrite (bind_escape _ _ _ _ _ Hpro); by destruct s. }
  split.
  - intros Hin. rewrite <- (preserved_input m ms _ Hp eq_refl Halive) in Hin.
    apply (Hrun (Throws _)); [done|].
    unfold adapt_input_ids, model_input. munfold. by rewrite Hin.
  - intros o Hin Ho.
    assert (o < length (nodes m)) as Hlt by by eapply input_alive.
    rewrite <- (preserved_input m ms _ Hp eq_refl Halive) in Hin.
    destruct (preserved_get_names m ms o Hp Hlt) as [_ Ho']. rewrite <- Ho' in Ho.
    apply (Hrun NullDeref); [done|].
    unfold adapt_input_ids, model_input, dynamic_pointer_cast_Parameter. munfold.
    rewrite Hin. simpl. by rewrite Ho.
Qed.

(** C5. The code has no [return false] for [input_ids]: on a graph with no
    input of that name the lookup of line 41 raises, and on a graph where
    the name is bound to a node that is not a Parameter line 42 dereferences
    the null result of the downcast.  Neither run returns. *)
Theorem input_ids_failure_signal :
  input Samples.no_input_ids "input_ids" = None
  ∧ (run_on_model Samples.passes Samples.no_input_ids).1
    = Throws "input_ids"
  ∧ input Samples.computed_input_ids "input_ids" = Some 0
  ∧ as_Parameter Samples.computed_input_ids 0 = None
  ∧ (run_on_model Samples.passes Samples.computed_input_ids).1 = NullDeref.
Proof.
  assert (params_alive Samples.no_input_ids) as H1.
  { unfold params_alive. apply (bool_decide_unpack _). vm_compute. exact I. }
  assert (params_alive Samples.computed_input_ids) as H2.
  { unfold params_alive. apply (bool_decide_unpack _). vm_compute. exact I. }
  assert (input Samples.no_input_ids "input_ids" = None) as Hin1
    by (vm_compute; reflexivity).
  assert (input Samples.computed_input_ids "input_ids" = Some 0) as Hin2
    by (vm_compute; reflexivity).
  assert (as_Parameter Samples.computed_input_ids 0 = None) as Ho
    by (vm_compute; reflexivity).
  split; [done|]. split.
  { by rewrite (proj1 (input_ids_unchecked Samples.passes _ H1) Hin1). }
  split; [done|]. split; [done|].
  by rewrite (proj2 (input_ids_unchecked Samples.passes _ H2) 0 Hin2 Ho).
Qed.

(** * Further properties of the source unit *)

(** ** [setName] *)

(** X1. [setName] gives a live node the friendly name and the one tensor
    name it is passed, whatever names the node had; the operation and the
    operands of the node, every other node and the lists of the model stay;
    and of two calls on the same node the second one decides the names. *)
Theorem setName_overrides (m : Model) (p : node_ref) (name : string) (nd : Node) :
  nodes m !! p = Some nd →
  ∃ m',
    setName p name m = (Next p, m')
    ∧ nodes m' !! p = Some (mkNode (node_op nd) (node_inputs nd) name [name])
    ∧ (∀ q, q ≠ p → nodes m' !! q = nodes m !! q)
    ∧ length (nodes m') = length (nodes m)
    ∧ (m_parameters m', m_results m', m_sinks m')
      = (m_parameters m, m_results m, m_sinks m)
    ∧ ∀ name', (setName p name ≫= λ q, setName q name') m = setName p name' m.
Proof.
  intros Hnd. unfold node_ref in *. eexists. split; [reflexivity|]. simpl.
  split; [by rewrite list_lookup_alter_eq, Hnd|].
  split; [intros q Hq; by rewrite list_lookup_alter_ne|].
  split; [apply length_alter|]. split; [done|].
  intros name'. unfold setName. munfold. simpl. unfold with_nodes. simpl.
  rewrite list_alter_alter_eq.
  by f_equal.
Qed.

Lemma setName_overrides_witness :
  get_names Samples.stateful 1 = ["attention_mask"]
  ∧ ∃ m', setName 1 "mask" Samples.stateful = (Next 1, m')
          ∧ nodes m' !! 1
            = Some (mkNode (v0_Parameter i64 [(-1)%Z; (-1)%Z]) [] "mask" ["mask"]).
Proof.
  split; [reflexivity|].
  destruct (setName_overrides Samples.stateful 1 "mask"
              (Samples.param i64 [(-1)%Z; (-1)%Z] "attention_mask") eq_refl)
    as (m' & Hrun & Hnode & _).
  exists m'. split; [exact Hrun|exact Hnode].
Defined.

(** ** Endings *)

Lemma ending_of_cast {A B : Type} (s : signal A) :
  escapes s → ending_of (@cast_signal A B s) = ending_of s.
Proof. by destruct s. Qed.

Lemma avoids_bind {A B : Type} (bad : ending → Prop) (c : M A) (k : A → M B) :
  avoids bad c → (∀ a, avoids bad (k a)) → avoids bad (c ≫= k).
Proof.
  intros Hc Hk m. specialize (Hc m). munfold.
  destruct (c m) as [[a| | |] m1]; simpl in *; try done. apply Hk.
Qed.

Lemma avoids_Falls {A : Type} (bad : ending → Prop) (c : M A) :
  (∀ m, ∃ a m', c m = (Next a, m')) → ¬ bad Falls → avoids bad c.
Proof. intros Hc Hbad m. destruct (Hc m) as (a & m' & ->). done. Qed.

Lemma keeps_bind {A B X : Type} (field : Model → X) (c : M A) (k : A → M B) :
  keeps field c → (∀ a, keeps field (k a)) → keeps field (c ≫= k).
Proof.
  intros Hc Hk m. specialize (Hc m). munfold.
  destruct (c m) as [[a| | |] m1]; simpl in *; try done. by rewrite Hk.
Qed.

Lemma keeps_for_each {A X : Type} (field : Model → X) (l : list A)
    (body : A → M unit) :
  (∀ x, keeps field (body x)) → keeps field (for_each l body).
Proof.
  intros Hb. induction l as [|x l IH]; simpl; [done|].
  apply keeps_bind; [apply Hb|]. by intros _.
Qed.

(** The three ways lines 69-79 can go. *)
Lemma adapt_position_ids_cases (m : Model) :
  (input m "position_ids" = None ∧ ∃ u m', adapt_position_ids m = (Next u, m'))
  ∨ (∃ p, input m "position_ids" = Some p ∧ as_Parameter m p = Some p
          ∧ ∃ u m', adapt_position_ids m = (Next u, m'))
  ∨ (∃ o, input m "position_ids" = Some o ∧ as_Parameter m o = None
          ∧ adapt_position_ids m = (NullDeref, m)).
Proof.
  destruct (input m "position_ids") as [p|] eqn:Hin.
  - destruct (as_Parameter_cases m p) as [Hp|Hp].
    + right. left. exists p. split; [done|]. split; [done|].
      rewrite (adapt_position_ids_parameter m p Hin Hp). eauto.
    + right. right. exists p. split; [done|]. split; [done|].
      by apply (adapt_position_ids_other m p).
  - left. split; [done|]. rewrite (adapt_position_ids_absent m Hin). eauto.
Qed.

(** The three ways lines 99-106 can go. *)
Lemma remove_beam_idx_cases (m : Model) :
  (input m "beam_idx" = None ∧ remove_beam_idx m = (Next tt, m))
  ∨ (∃ p, input m "beam_idx" = Some p ∧ as_Parameter m p = Some p
          ∧ remove_beam_idx m
            = (Next tt, with_parameters m (filter (λ r, r ≠ p) (m_parameters m))))
  ∨ (∃ o, input m "beam_idx" = Some o ∧ as_Parameter m o = None
          ∧ remove_beam_idx m = (Returns false, m)).
Proof.
  destruct (input m "beam_idx") as [p|] eqn:Hin.
  - destruct (as_Parameter_cases m p) as [Hp|Hp].
    + right. left. exists p. eauto using remove_beam_idx_parameter.
    + right. right. exists p. eauto using remove_beam_idx_other.
  - left. eauto using remove_beam_idx_absent.
Qed.

(** X2. The two lookups that the source guards with [has_parameter] (lines
    74 and 101) never raise: the guard is true exactly when the lookup finds
    the name, so neither the adaptation of [position_ids] nor the handling
    of [beam_idx] ends in an exception, on any graph. *)
Theorem guarded_lookups_never_raise (m : Model) :
  has_parameter m "position_ids" = bool_decide (is_Some (input m "position_ids"))
  ∧ has_parameter m "beam_idx" = bool_decide (is_Some (input m "beam_idx"))
  ∧ (∀ name, (adapt_position_ids m).1 ≠ Throws name)
  ∧ (∀ name, (remove_beam_idx m).1 ≠ Throws name).
Proof.
  split; [apply has_parameter_input|]. split; [apply has_parameter_input|]. split.
  - intros name.
    destruct (adapt_position_ids_cases m)
      as [(_ & u & m' & ->)|[(p & _ & _ & u & m' & ->)|(o & _ & _ & ->)]]; done.
  - intros name.
    destruct (remove_beam_idx_cases m)
      as [(_ & ->)|[(p & _ & _ & ->)|(o & _ & _ & ->)]]; done.
Qed.

(** ** Every way a run can go *)

Lemma prologue_from_line_69 (m : Model) (i : node_ref) :
  let n := length (nodes m) in
  let ms := with_nodes m (nodes m ++ synthesized) in
  input ms "input_ids" = Some i → as_Parameter ms i = Some i →
  prologue m
  = (adapt_position_ids ≫= λ v,
       mret (mkLocals n [n + 1; n + 2; n + 3; n + 4] (n + 5) (n + 7) (n + 13) v))
      (with_nodes m (store_at_line_69 m i)).
Proof.
  intros n ms Hin Hi. unfold prologue.
  rewrite (bind_Next _ _ _ _ _ (synthesize_eq m)). simpl. fold n. fold ms.
  rewrite (bind_Next _ _ _ _ _ (adapt_input_ids_eq ms i Hin Hi)).
  rewrite (bind_Next _ _ _ _ _ (make_prev_max_seq_len_eq _ _ _)).
  unfold ms, store_at_line_69. simpl.
  rewrite !length_redirect, !length_app, !length_alter, !length_app. simpl. fold n.
  rewrite !with_nodes_twice.
  replace (n + 6 + 1) with (n + 7) by lia.
  replace (n + 6 + 2) with (n + 8) by lia.
  replace (n + 8 + 1) with (n + 9) by lia.
  replace (n + 8 + 2) with (n + 10) by lia.
  replace (n + 8 + 3) with (n + 11) by lia.
  replace (n + 8 + 4) with (n + 12) by lia.
  replace (n + 8 + 5) with (n + 13) by lia.
  done.
Qed.

Lemma prologue_cases (m : Model) :
  let ms := with_nodes m (nodes m ++ synthesized) in
  (input ms "input_ids" = None ∧ prologue m = (Throws "input_ids", ms))
  ∨ (∃ o, input ms "input_ids" = Some o ∧ as_Parameter ms o = None
          ∧ prologue m = (NullDeref, ms))
  ∨ (∃ i o, input ms "input_ids" = Some i ∧ as_Parameter ms i = Some i
            ∧ input (with_nodes m (store_at_line_69 m i)) "position_ids" = Some o
            ∧ as_Parameter (with_nodes m (store_at_line_69 m i)) o = None
            ∧ prologue m = (NullDeref, with_nodes m (store_at_line_69 m i)))
  ∨ (∃ i l m0, input ms "input_ids" = Some i ∧ as_Parameter ms i = Some i
               ∧ adapt_position_ids (with_nodes m (store_at_line_69 m i))
                 = (Next (unsqueezed_position_ids l), m0)
               ∧ prologue m = (Next l, m0)).
Proof.
  intros ms. destruct (input ms "input_ids") as [i|] eqn:Hin.
  2:{ left. split; [done|]. unfold prologue.
      rewrite (bind_Next _ _ _ _ _ (synthesize_eq m)). simpl. fold ms.
      unfold adapt_input_ids, model_input. munfold. by rewrite Hin. }
  destruct (as_Parameter_cases ms i) as [Hi|Hi].
  2:{ right. left. exists i. split; [done|]. split; [done|]. unfold prologue.
      rewrite (bind_Next _ _ _ _ _ (synthesize_eq m)). simpl. fold ms.
      unfold adapt_input_ids, model_input, dynamic_pointer_cast_Parameter.
      munfold. rewrite Hin. simpl. by rewrite Hi. }
  right. right. pose proof (prologue_from_line_69 m i Hin Hi) as Heq.
  simpl in Heq. set (mb := with_nodes m (store_at_line_69 m i)) in *.
  destruct (adapt_position_ids_cases mb)
    as [(_ & u & m' & Hu)|[(p & _ & _ & u & m' & Hu)|(o & Ho & Hno & Hu)]].
  - right.
    exists i, (mkLocals (length (nodes m))
                 [length (nodes m) + 1; length (nodes m) + 2;
                  length (nodes m) + 3; length (nodes m) + 4]
                 (length (nodes m) + 5) (length (nodes m) + 7)
                 (length (nodes m) + 13) u), m'.
    split; [done|]. split; [done|].
    rewrite Heq, (bind_Next _ _ _ _ _ Hu). split; [exact Hu|done].
  - right.
    exists i, (mkLocals (length (nodes m))
                 [length (nodes m) + 1; length (nodes m) + 2;
                  length (nodes m) + 3; length (nodes m) + 4]
                 (length (nodes m) + 5) (length (nodes m) + 7)
                 (length (nodes m) + 13) u), m'.
    split; [done|]. split; [done|].
    rewrite Heq, (bind_Next _ _ _ _ _ Hu). split; [exact Hu|done].
  - left. exists i, o. split; [done|]. split; [done|]. fold mb.
    split; [done|]. split; [done|].
    by rewrite Heq, (bind_escape _ _ _ _ _ Hu).
Qed.

(** The two ways lines 108-134 can fail, and the one way they succeed. *)
Lemma from_attention_mask_cases (l : Locals) (ctx : PassContext) (m : Model) :
  (input m "attention_mask" = None
   ∧ from_attention_mask l ctx m = (Throws "attention_mask", m))
  ∨ (∃ o, input m "attention_mask" = Some o ∧ as_Parameter m o = None
          ∧ from_attention_mask l ctx m = (Returns false, m))
  ∨ (∃ p, input m "attention_mask" = Some p ∧ as_Parameter m p = Some p
          ∧ from_attention_mask l ctx m
            = (Returns true,
               mkModel (nodes m)
                 (filter (λ r, r ∉ parameters_to_remove ctx)
                         (filter (λ r, r ≠ p) (m_parameters m))
                  ++ kv_parameters ctx ++ model_remaining_params l
                  ++ [max_context_len l])
                 (m_results m) [])).
Proof.
  destruct (input m "attention_mask") as [p|] eqn:Hin.
  - right. destruct (as_Parameter_cases m p) as [Hp|Hp].
    + right. exists p. split; [done|]. split; [done|].
      by apply from_attention_mask_parameter.
    + left. exists p. split; [done|]. split; [done|]. unfold from_attention_mask.
      by rewrite (bind_escape _ _ _ _ _ (remove_attention_mask_other _ _ Hin Hp)).
  - left. split; [done|].
    unfold from_attention_mask, remove_attention_mask, model_input. munfold.
    by rewrite Hin.
Qed.

(** A run ends in the prologue, at line 104, or in lines 108-134. *)
Lemma run_on_model_cases (sub : SubPasses) (m : Model) :
  (∃ s m', prologue m = (s, m') ∧ escapes s
           ∧ run_on_model sub m = (cast_signal s, m'))
  ∨ (∃ l ctx m1 o,
       upto_passes sub m = (Next (l, ctx), m1)
       ∧ input m1 "beam_idx" = Some o ∧ as_Parameter m1 o = None
       ∧ run_on_model sub m = (Returns false, m1))
  ∨ (∃ l ctx m1 m1',
       upto_passes sub m = (Next (l, ctx), m1)
       ∧ remove_beam_idx m1 = (Next tt, m1')
       ∧ upto_beam_idx sub m = (Next (l, ctx), m1')
       ∧ run_on_model sub m = from_attention_mask l ctx m1').
Proof.
  destruct (prologue m) as [[l| | |] m0] eqn:Hpro.
  2-4: left; eexists _, m0; split; [done|]; split; [done|];
       unfold run_on_model; by rewrite (bind_escape _ _ _ _ _ Hpro).
  right. destruct (run_passes_Next sub l m0) as (ctx & m1 & Hrun).
  assert (upto_passes sub m = (Next (l, ctx), m1)) as Hup.
  { unfold upto_passes. rewrite (bind_Next _ _ _ _ _ Hpro).
    by rewrite (bind_Next _ _ _ _ _ Hrun). }
  destruct (remove_beam_idx_cases m1)
    as [(Hin & Hb)|[(p & Hin & Hp & Hb)|(o & Hin & Ho & Hb)]].
  - right. exists l, ctx, m1, m1. split; [done|]. split; [done|]. split.
    + unfold upto_beam_idx. rewrite (bind_Next _ _ _ _ _ Hup).
      by rewrite (bind_Next _ _ _ _ _ Hb).
    + rewrite run_on_model_from_passes, (bind_Next _ _ _ _ _ Hup). simpl.
      by rewrite (bind_Next _ _ _ _ _ Hb).
  - right. eexists l, ctx, m1, _. split; [done|]. split; [exact Hb|]. split.
    + unfold upto_beam_idx. rewrite (bind_Next _ _ _ _ _ Hup).
      by rewrite (bind_Next _ _ _ _ _ Hb).
    + rewrite run_on_model_from_passes, (bind_Next _ _ _ _ _ Hup). simpl.
      by rewrite (bind_Next _ _ _ _ _ Hb).
  - left. exists l, ctx, m1, o. split; [done|]. split; [done|]. split; [done|].
    rewrite run_on_model_from_passes, (bind_Next _ _ _ _ _ Hup). simpl.
    by rewrite (bind_escape _ _ _ _ _ Hb).
Qed.

Ltac keeps_step :=
  first
    [ apply keeps_bind; [|intros ?]
    | apply keeps_for_each; intros ?
    | match goal with |- keeps _ (if ?b then _ else _) => destruct b end
    | match goal with |- keeps _ (match ?o with Some _ => _ | None => _ end) =>
        destruct o end
    | (intros ?; cbv beta delta
          [model_input dynamic_pointer_cast_Parameter arrow make_shared
           Constant_create setName set_partial_shape replace_node add_parameters
           remove_parameter remove_sink remove_result get_sinks has_parameter_
           return_ mret M_mret M_ret];
       repeat case_match; reflexivity) ].

Lemma remove_beam_idx_keeps :
  keeps nodes remove_beam_idx ∧ keeps m_results remove_beam_idx
  ∧ keeps m_sinks remove_beam_idx.
Proof. unfold remove_beam_idx. repeat split; repeat keeps_step. Qed.

Lemma from_attention_mask_keeps_nodes (l : Locals) (ctx : PassContext) :
  keeps nodes (from_attention_mask l ctx).
Proof.
  unfold from_attention_mask, remove_attention_mask, finish. repeat keeps_step.
Qed.

(** X3. A run raises only at the two unguarded lookups.  When it raises for
    [input_ids] (line 41), nothing but the synthesis of lines 31-38 has
    happened; when it raises for [attention_mask] (line 109), the sub-passes
    have run and [beam_idx] has been dealt with, and no input of the graph
    carries the name. *)
Theorem raises_only_at_unguarded_lookups (sub : SubPasses) (m m' : Model)
    (name : string) :
  run_on_model sub m = (Throws name, m') →
  (name = "input_ids"
   ∧ m' = with_nodes m (nodes m ++ synthesized)
   ∧ input m' "input_ids" = None
   ∧ prologue m = (Throws "input_ids", m'))
  ∨ (name = "attention_mask"
     ∧ input m' "attention_mask" = None
     ∧ ∃ l ctx, upto_beam_idx sub m = (Next (l, ctx), m')).
Proof.
  intros H.
  destruct (run_on_model_cases sub m)
    as [(s & m1 & Hpro & Hs & Hrun)
       |[(l & ctx & m1 & o & _ & _ & _ & Hrun)
        |(l & ctx & m1 & m1' & _ & _ & Hup & Hrun)]];
    rewrite Hrun in H.
  - destruct s as [|b|w|]; try done. simpl in H. inversion H; subst w m1. left.
    destruct (prologue_cases m)
      as [(Hin & Hp)|[(o & _ & _ & Hp)|[(i & o & _ & _ & _ & _ & Hp)
         |(i & l & m0 & _ & _ & _ & Hp)]]];
      simpl in Hp; rewrite Hp in Hpro; inversion Hpro; subst.
    by rewrite Hp.
  - done.
  - destruct (from_attention_mask_cases l ctx m1')
      as [(Hin & Hf)|[(o & _ & _ & Hf)|(p & _ & _ & Hf)]];
      rewrite Hf in H; inversion H; subst.
    right. split; [done|]. split; [done|]. eauto.
Qed.

Lemma raises_only_at_unguarded_lookups_witness :
  (run_on_model Samples.passes Samples.no_input_ids).1 = Throws "input_ids"
  ∧ input (run_on_model Samples.passes Samples.no_input_ids).2 "input_ids" = None.
Proof.
  split; [vm_compute; reflexivity|].
  destruct (raises_only_at_unguarded_lookups Samples.passes Samples.no_input_ids
              (run_on_model Samples.passes Samples.no_input_ids).2 "input_ids")
    as [(_ & _ & Hin & _)|(Hname & _)].
  - vm_compute; reflexivity.
  - exact Hin.
  - discriminate Hname.
Defined.

(** X4. A run returns [false] only at line 104 or at line 112, that is,
    after the sub-passes have run and with [beam_idx] or [attention_mask]
    bound to a node that is not a Parameter in the graph it leaves.  That
    graph has the nodes, the Results and the Sinks the sub-passes left (no
    Sink has been removed) and a sublist of their Parameter list (nothing
    has been appended). *)
Theorem false_return_cause (sub : SubPasses) (m m2 : Model) :
  run_on_model sub m = (Returns false, m2) →
  ∃ l ctx m1,
    upto_passes sub m = (Next (l, ctx), m1)
    ∧ nodes m2 = nodes m1 ∧ m_results m2 = m_results m1 ∧ m_sinks m2 = m_sinks m1
    ∧ m_parameters m2 `sublist_of` m_parameters m1
    ∧ ((∃ o, input m2 "beam_idx" = Some o ∧ as_Parameter m2 o = None ∧ m2 = m1)
       ∨ (∃ o, input m2 "attention_mask" = Some o ∧ as_Parameter m2 o = None)).
Proof.
  intros H.
  destruct (run_on_model_cases sub m)
    as [(s & m1 & Hpro & Hs & Hrun)
       |[(l & ctx & m1 & o & Hup & Hin & Ho & Hrun)
        |(l & ctx & m1 & m1' & Hup & Hb & _ & Hrun)]];
    rewrite Hrun in H.
  - destruct s as [|b|w|]; try done. simpl in H. inversion H; subst b m1.
    destruct (prologue_cases m)
      as [(_ & Hp)|[(o & _ & _ & Hp)|[(i & o & _ & _ & _ & _ & Hp)
         |(i & l & m0 & _ & _ & _ & Hp)]]];
      simpl in Hp; by rewrite Hp in Hpro.
  - inversion H; subst m2. exists l, ctx, m1. repeat split; try done.
    left. by exists o.
  - destruct (from_attention_mask_cases l ctx m1')
      as [(_ & Hf)|[(o & Hin & Ho & Hf)|(p & _ & _ & Hf)]];
      rewrite Hf in H; inversion H; subst m2.
    destruct remove_beam_idx_keeps as (Hn & Hr & Hs).
    specialize (Hn m1). specialize (Hr m1). specialize (Hs m1).
    rewrite Hb in Hn, Hr, Hs. simpl in *.
    exists l, ctx, m1. split; [done|]. split; [done|]. split; [done|].
    split; [done|]. split; [by apply remove_beam_idx_inv|].
    right. by exists o.
Qed.

Lemma false_return_cause_witness :
  (run_on_model Samples.passes Samples.computed_mask).1 = Returns false
  ∧ m_sinks (run_on_model Samples.passes Samples.computed_mask).2 = [6; 7; 8; 9]
  ∧ ∃ l ctx m1,
      upto_passes Samples.passes Samples.computed_mask = (Next (l, ctx), m1)
      ∧ m_sinks (run_on_model Samples.passes Samples.computed_mask).2 = m_sinks m1.
Proof.
  split; [vm_compute; reflexivity|]. split; [vm_compute; reflexivity|].
  destruct (false_return_cause Samples.passes Samples.computed_mask
              (run_on_model Samples.passes Samples.computed_mask).2)
    as (l & ctx & m1 & Hup & _ & _ & Hs & _).
  - vm_compute; reflexivity.
  - exists l, ctx, m1. split; [exact Hup|exact Hs].
Defined.

(** X5. A null dereference can only happen before the sub-passes run, at
    line 42 or at line 75: the graph it leaves has [input_ids] or
    [position_ids] bound to a node that is not a Parameter, and its
    Parameter list, Results and Sinks are those of the graph on entry. *)
Theorem null_dereference_precedes_passes (sub : SubPasses) (m m' : Model) :
  run_on_model sub m = (NullDeref, m') →
  prologue m = (NullDeref, m')
  ∧ (m_parameters m', m_results m', m_sinks m')
    = (m_parameters m, m_results m, m_sinks m)
  ∧ ((∃ o, input m' "input_ids" = Some o ∧ as_Parameter m' o = None)
     ∨ (∃ o, input m' "position_ids" = Some o ∧ as_Parameter m' o = None)).
Proof.
  intros H.
  destruct (run_on_model_cases sub m)
    as [(s & m1 & Hpro & Hs & Hrun)
       |[(l & ctx & m1 & o & _ & _ & _ & Hrun)
        |(l & ctx & m1 & m1' & _ & _ & _ & Hrun)]];
    rewrite Hrun in H.
  - destruct s as [|b|w|]; try done. simpl in H. inversion H; subst m1.
    destruct (prologue_cases m)
      as [(_ & Hp)|[(o & Hin & Ho & Hp)|[(i & o & _ & _ & Hin & Ho & Hp)
         |(i & l & m0 & _ & _ & _ & Hp)]]];
      simpl in Hp; rewrite Hp in Hpro; inversion Hpro; subst m'.
    + split; [done|]. split; [done|]. left. by exists o.
    + split; [done|]. split; [done|]. right. by exists o.
  - done.
  - destruct (from_attention_mask_cases l ctx m1')
      as [(_ & Hf)|[(o & _ & _ & Hf)|(p & _ & _ & Hf)]];
      by rewrite Hf in H.
Qed.

Lemma null_dereference_precedes_passes_witness :
  (run_on_model Samples.passes Samples.computed_input_ids).1 = NullDeref
  ∧ m_parameters (run_on_model Samples.passes Samples.computed_input_ids).2
    = [0; 1; 2; 3]
  ∧ prologue Samples.computed_input_ids
    = (NullDeref, (run_on_model Samples.passes Samples.computed_input_ids).2).
Proof.
  split; [vm_compute; reflexivity|]. split; [vm_compute; reflexivity|].
  apply (null_dereference_precedes_passes Samples.passes Samples.computed_input_ids).
  vm_compute; reflexivity.
Defined.

(** X6. Lines 99-134 only edit the lists of the model: on every path (a
    [true] or [false] return, or the exception of line 109) the node store
    at the end of the run is the one the sub-passes left. *)
Theorem finalizer_keeps_node_store (sub : SubPasses) (m : Model) :
  nodes (run_on_model sub m).2 = nodes (upto_passes sub m).2.
Proof.
  rewrite run_on_model_from_passes. munfold.
  destruct (upto_passes sub m) as [[[l ctx]| | |] m1]; simpl; try done.
  destruct remove_beam_idx_keeps as (Hn & _ & _). specialize (Hn m1).
  destruct (remove_beam_idx m1) as [[[]| | |] m1']; simpl in *; try done.
  rewrite <- Hn. apply from_attention_mask_keeps_nodes.
Qed.

(** X7. A run returns [true] exactly when control reaches line 108 in a
    graph where [attention_mask] is bound to a Parameter [p]; the graph it
    leaves then has the node store and the Results of that graph, no Sink,
    and as Parameter list the entries of that graph other than [p] and the
    ones recorded in [parameters_to_remove], in their order, followed by the
    KV Parameters, the four vectors and [max_context_len]. *)
Theorem success_characterised (sub : SubPasses) (m m2 : Model) :
  run_on_model sub m = (Returns true, m2) ↔
  ∃ l ctx m1 p,
    upto_beam_idx sub m = (Next (l, ctx), m1)
    ∧ input m1 "attention_mask" = Some p
    ∧ as_Parameter m1 p = Some p
    ∧ nodes m2 = nodes m1 ∧ m_results m2 = m_results m1 ∧ m_sinks m2 = []
    ∧ m_parameters m2
      = filter (λ r, (r ∉ parameters_to_remove ctx) ∧ r ≠ p) (m_parameters m1)
        ++ kv_parameters ctx ++ model_remaining_params l ++ [max_context_len l].
Proof.
  split.
  - intros H. apply success_inv in H as (l & ctx & m1 & p & Hup & Hin & Hp & ->).
    exists l, ctx, m1, p. simpl. by rewrite list_filter_filter.
  - intros (l & ctx & m1 & p & Hup & Hin & Hp & Hn & Hr & Hs & Hps).
    rewrite run_on_model_from_beam_idx, (bind_Next _ _ _ _ _ Hup). simpl.
    rewrite (from_attention_mask_parameter _ _ _ _ Hin Hp).
    destruct m2 as [ns ps rs ss]. simpl in *. subst.
    by rewrite list_filter_filter.
Qed.

Lemma success_characterised_witness :
  ∃ l ctx m1 p,
    upto_beam_idx Samples.passes Samples.stateful = (Next (l, ctx), m1)
    ∧ input m1 "attention_mask" = Some p
    ∧ m_sinks (run_on_model Samples.passes Samples.stateful).2 = []
    ∧ m_parameters (run_on_model Samples.passes Samples.stateful).2
      = filter (λ r, (r ∉ parameters_to_remove ctx) ∧ r ≠ p) (m_parameters m1)
        ++ kv_parameters ctx ++ model_remaining_params l ++ [max_context_len l].
Proof.
  destruct (proj1 (success_characterised Samples.passes Samples.stateful
                     (run_on_model Samples.passes Samples.stateful).2))
    as (l & ctx & m1 & p & Hup & Hin & _ & _ & _ & Hs & Hps).
  - vm_compute; reflexivity.
  - exists l, ctx, m1, p. split; [exact Hup|]. split; [exact Hin|].
    split; [exact Hs|exact Hps].
Defined.

(** ** What the prologue keeps of the nodes it finds *)

Lemma adapted_refl (a : Node) : adapted a a.
Proof. repeat split; auto. Qed.

Lemma adapted_trans (a b c : Node) : adapted a b → adapted b c → adapted a c.
Proof.
  intros (Hf & Hn & Hl & Ho) (Hf' & Hn' & Hl' & Ho').
  split; [congruence|]. split; [congruence|]. split; [congruence|].
  destruct Ho as [Ho|(et & ps & ps' & Ha & Hb)],
           Ho' as [Ho'|(et' & qs & qs' & Hb' & Hc)].
  - left. congruence.
  - right. exists et', qs, qs'. split; congruence.
  - right. exists et, ps, ps'. split; congruence.
  - right. rewrite Hb in Hb'. inversion Hb'; subst. by exists et', ps, qs'.
Qed.

Lemma adapted_reshape (ps : PartialShape) (a : Node) : adapted a (reshape ps a).
Proof.
  unfold reshape. destruct (node_op a) eqn:E; try apply adapted_refl.
  repeat split; try done. right. simpl. eauto.
Qed.

Lemma adapted_rewire (t u : node_ref) (a : Node) : adapted a (rewire t u a).
Proof. unfold rewire. repeat split; simpl; auto. apply length_fmap. Qed.

Lemma evolves_refl (ns : list Node) : evolves ns ns.
Proof. intros r a H. eauto using adapted_refl. Qed.

Lemma evolves_trans (ns1 ns2 ns3 : list Node) :
  evolves ns1 ns2 → evolves ns2 ns3 → evolves ns1 ns3.
Proof.
  intros H12 H23 r a Ha.
  destruct (H12 r a Ha) as (b & Hb & Hab).
  destruct (H23 r b Hb) as (c & Hc & Hbc).
  eauto using adapted_trans.
Qed.

Lemma evolves_app (ns extra : list Node) : evolves ns (ns ++ extra).
Proof. intros r a H. exists a. split; [by apply lookup_app_l_Some|apply adapted_refl]. Qed.

Lemma evolves_reshape (ps : PartialShape) (i : node_ref) (ns : list Node) :
  evolves ns (alter (reshape ps) i ns).
Proof.
  intros r a H. unfold node_ref in *. destruct (decide (i = r)) as [->|Hne].
  - exists (reshape ps a). rewrite list_lookup_alter_eq, H.
    split; [done|]. apply adapted_reshape.
  - exists a. rewrite list_lookup_alter_ne by done. split; [done|apply adapted_refl].
Qed.

Lemma evolves_redirect (t u : node_ref) (ns : list Node) :
  evolves ns (redirect t u ns).
Proof.
  intros r a H. exists (if decide (r = u) then a else rewire t u a).
  rewrite lookup_redirect, H. split; [done|].
  case_decide; [apply adapted_refl|apply adapted_rewire].
Qed.

Lemma evolves_store_at_line_69 (m : Model) (i : node_ref) :
  evolves (nodes m) (store_at_line_69 m i).
Proof.
  unfold store_at_line_69.
  eapply evolves_trans; [|apply evolves_app].
  eapply evolves_trans; [|apply evolves_redirect].
  eapply evolves_trans; [|apply evolves_app].
  eapply evolves_trans; [|apply evolves_reshape].
  apply evolves_app.
Qed.

Lemma adapt_position_ids_evolves (m : Model) :
  evolves (nodes m) (nodes (adapt_position_ids m).2).
Proof.
  destruct (input m "position_ids") as [p|] eqn:Hin.
  - destruct (as_Parameter_cases m p) as [Hp|Hp].
    + rewrite (adapt_position_ids_parameter m p Hin Hp). simpl.
      eapply evolves_trans; [|apply evolves_redirect].
      eapply evolves_trans; [|apply evolves_app].
      apply evolves_reshape.
    + rewrite (adapt_position_ids_other m p Hin Hp). apply evolves_refl.
  - rewrite (adapt_position_ids_absent m Hin). simpl.
    eapply evolves_trans; [|apply evolves_redirect]. apply evolves_app.
Qed.

(** X8. Whatever the prologue (lines 31-79) does and however it ends, every
    node it finds is still in the store afterwards with the same friendly
    name, the same tensor names, the same number of operands and the same
    operation; a Parameter keeps its element type, only its shape may
    differ.  No node is removed, renamed or turned into another kind. *)
Theorem prologue_adapts_only (m : Model) :
  evolves (nodes m) (nodes (prologue m).2).
Proof.
  destruct (prologue_cases m)
    as [(_ & Hp)|[(o & _ & _ & Hp)|[(i & o & _ & _ & _ & _ & Hp)
       |(i & l & m0 & _ & _ & Hu & Hp)]]];
    simpl in Hp; rewrite Hp; simpl.
  - apply evolves_app.
  - apply evolves_app.
  - apply evolves_store_at_line_69.
  - eapply evolves_trans; [apply (evolves_store_at_line_69 m i)|].
    pose proof (adapt_position_ids_evolves (with_nodes m (store_at_line_69 m i)))
      as He.
    by rewrite Hu in He.
Qed.

(** ** The adaptation of [input_ids] *)

(** X9. Lines 40-45, when [input_ids] is bound to a Parameter: the Parameter
    list is left as it is, the Parameter keeps its element type and names
    and gets the shape [[-1]], exactly two nodes are created (the axis
    constant 1 and an Unsqueeze that reads the Parameter and that
    constant), every input port that read the Parameter reads the Unsqueeze
    afterwards, and the Unsqueeze is the only reader of the Parameter that
    is left. *)
Theorem input_ids_adaptation (m : Model) (i : node_ref) :
  input m "input_ids" = Some i → as_Parameter m i = Some i →
  let n := length (nodes m) in
  ∃ m' nd nd' et ps,
    adapt_input_ids m = (Next (n + 1), m')
    ∧ (m_parameters m', m_results m', m_sinks m')
      = (m_parameters m, m_results m, m_sinks m)
    ∧ length (nodes m') = n + 2
    ∧ nodes m !! i = Some nd ∧ nodes m' !! i = Some nd'
    ∧ node_op nd = v0_Parameter et ps
    ∧ node_op nd' = v0_Parameter et [(-1)%Z]
    ∧ tensor_names nd' = tensor_names nd
    ∧ inserted m m' i (n + 1).
Proof.
  intros Hin Hi n.
  destruct (as_Parameter_Some m i Hi) as (nd & et & ps & Hnd & Hop).
  unfold node_ref in *.
  assert (i < n) as Hlt by by apply lookup_lt_Some in Hnd.
  eexists _, nd, (rewire i (n + 1) (reshape [(-1)%Z] nd)), et, ps.
  split; [by apply adapt_input_ids_eq|]. fold n. simpl.
  split; [done|].
  split; [rewrite length_redirect, length_app, length_alter; simpl; by fold n|].
  split; [done|].
  split.
  { rewrite lookup_redirect_ne by lia.
    rewrite lookup_app_l by (rewrite length_alter; done).
    by rewrite list_lookup_alter_eq, Hnd. }
  split; [done|]. split; [unfold reshape; by rewrite Hop|].
  split; [unfold reshape; by rewrite Hop|].
  apply (inserted_by_redirect m _ (alter (reshape [(-1)%Z]) i (nodes m))
           i n (n + 1)).
  - apply length_alter.
  - done.
  - done.
  - lia.
  - intros c nd0 Hc. destruct (decide (i = c)) as [->|Hne].
    + exists (reshape [(-1)%Z] nd0). rewrite list_lookup_alter_eq, Hc.
      split; [done|apply reshape_inputs].
    + exists nd0. by rewrite list_lookup_alter_ne.
  - done.
Qed.

Lemma input_ids_adaptation_witness :
  input Samples.stateful "input_ids" = Some 0
  ∧ as_Parameter Samples.stateful 0 = Some 0
  ∧ ∃ m', adapt_input_ids Samples.stateful = (Next 12, m')
          ∧ length (nodes m') = 13
          ∧ inserted Samples.stateful m' 0 12.
Proof.
  assert (input Samples.stateful "input_ids" = Some 0) as Hin
    by (vm_compute; reflexivity).
  assert (as_Parameter Samples.stateful 0 = Some 0) as Hi
    by (vm_compute; reflexivity).
  split; [exact Hin|]. split; [exact Hi|].
  destruct (input_ids_adaptation Samples.stateful 0 Hin Hi)
    as (m' & nd & nd' & et & ps & Hrun & _ & Hlen & _ & _ & _ & _ & _ & Hins).
  exists m'. split; [exact Hrun|]. split; [exact Hlen|exact Hins].
Defined.

(** ** The graph handed to the sub-passes *)

Lemma synthesized_no_inputs (k : nat) (nd : Node) :
  synthesized !! k = Some nd → node_inputs nd = [].
Proof.
  do 6 (destruct k as [|k]; [intros H; by inversion H|]). by intros H.
Qed.

Lemma prologue_Next_inv (m m0 : Model) (l : Locals) :
  params_alive m → prologue m = (Next l, m0) →
  ∃ i, input m "input_ids" = Some i ∧ as_Parameter m i = Some i
       ∧ i < length (nodes m)
       ∧ adapt_position_ids (with_nodes m (store_at_line_69 m i))
         = (Next (unsqueezed_position_ids l), m0).
Proof.
  intros Halive Hpro.
  destruct (prologue_cases m)
    as [(_ & Hp)|[(o & _ & _ & Hp)|[(i & o & _ & _ & _ & _ & Hp)
       |(i & l' & m0' & Hin & Hi & Hu & Hp)]]];
    simpl in Hp; rewrite Hp in Hpro; try done.
  inversion Hpro; subst l' m0'. clear Hpro.
  set (ms := with_nodes m (nodes m ++ synthesized)) in *.
  assert (preserved (nodes m) (nodes ms)) as Hpres by apply preserved_app.
  rewrite (preserved_input m ms _ Hpres eq_refl Halive) in Hin.
  assert (i < length (nodes m)) as Hlt by by eapply input_alive.
  destruct (preserved_get_names m ms i Hpres Hlt) as [_ Hi']. rewrite Hi' in Hi.
  by exists i.
Qed.

(** X10. On a graph with live handles, when the prologue completes, the six
    nodes of lines 31-38 reach the sub-passes exactly as created (the five
    [i32] Parameters under their names and the sliding-window constant 0),
    under the handles that [max_context_len], [model_remaining_params] and
    [sliding_window] hold, and none of them is in the Parameter list yet. *)
Theorem synthesized_reach_the_passes (m m0 : Model) (l : Locals) :
  params_alive m → prologue m = (Next l, m0) →
  let n := length (nodes m) in
  (∀ k nd, synthesized !! k = Some nd → nodes m0 !! (n + k) = Some nd)
  ∧ max_context_len l = n
  ∧ model_remaining_params l = [n + 1; n + 2; n + 3; n + 4]
  ∧ sliding_window l = n + 5
  ∧ ∀ k, k < 6 → n + k ∉ m_parameters m0.
Proof.
  intros Halive Hpro n.
  pose proof Hpro as Hinv.
  apply prologue_inv in Hinv as (_ & _ & _ & _ & _ & _ & Hmcl & Hrem & Hsw & _).
  destruct (prologue_Next_inv m m0 l Halive Hpro) as (i & Hin & Hi & Hlt & Hu).
  set (mb := with_nodes m (store_at_line_69 m i)) in *.
  pose proof Hu as Hframe.
  apply adapt_position_ids_frame in Hframe as (p & Hp & Hframe).
  assert (p < n ∨ p = n + 14) as Hrange.
  { destruct Hp as [->|Hp].
    - right. simpl. apply length_store_at_line_69.
    - left. unfold params_alive in Halive. rewrite Forall_forall in Halive.
      by apply Halive. }
  split; [|split; [done|split; [done|split; [done|]]]].
  - intros k nd Hk.
    assert (k < 6) as Hk6 by (apply lookup_lt_Some in Hk; simpl in Hk; lia).
    assert (store_at_line_69 m i !! (n + k) = Some nd) as Hstore.
    { unfold store_at_line_69. fold n.
      rewrite lookup_app_l
        by (rewrite length_redirect, length_app, length_alter, length_app;
            simpl; fold n; lia).
      rewrite lookup_redirect_ne by lia.
      rewrite lookup_app_l
        by (rewrite length_alter, length_app; simpl; fold n; lia).
      rewrite list_lookup_alter_ne by (subst n; lia).
      rewrite lookup_app_r by (subst n; lia).
      replace (n + k - length (nodes m)) with k by (subst n; lia).
      rewrite Hk. simpl. f_equal. apply rewire_other.
      rewrite (synthesized_no_inputs k nd Hk). apply not_elem_of_nil. }
    rewrite (Hframe (n + k) nd Hstore) by lia. f_equal. apply rewire_other.
    rewrite (synthesized_no_inputs k nd Hk). apply not_elem_of_nil.
  - intros k Hk Hel.
    assert (Forall (λ r, r < n ∨ r = n + 14) (m_parameters m0)) as Hall.
    { assert (Forall (λ r, r < n ∨ r = n + 14) (m_parameters m)) as Hold.
      { eapply Forall_impl; [exact Halive|]. intros r Hr. simpl in Hr. by left. }
      destruct (input mb "position_ids") as [q|] eqn:Hq.
      - destruct (as_Parameter_cases mb q) as [Hq'|Hq'].
        + rewrite (adapt_position_ids_parameter mb q Hq Hq') in Hu.
          by inversion Hu; subst m0.
        + by rewrite (adapt_position_ids_other mb q Hq Hq') in Hu.
      - rewrite (adapt_position_ids_absent mb Hq) in Hu.
        inversion Hu; subst m0. simpl. rewrite length_store_at_line_69. fold n.
        apply Forall_app. split; [exact Hold|].
        constructor; [by right|constructor]. }
    rewrite Forall_forall in Hall. apply Hall in Hel. lia.
Qed.

Lemma synthesized_reach_the_passes_witness :
  params_alive Samples.stateful
  ∧ ∃ l m0, prologue Samples.stateful = (Next l, m0)
            ∧ nodes m0 !! sliding_window l
              = Some (mkNode (v0_Constant i32 [] [0%Z]) [] "" [])
            ∧ nodes m0 !! max_context_len l
              = Some (mkNode (v0_Parameter i32 []) [] "max_context_len"
                             ["max_context_len"]).
Proof.
  assert (params_alive Samples.stateful) as Halive.
  { unfold params_alive. apply (bool_decide_unpack _). vm_compute. exact I. }
  split; [exact Halive|].
  assert (∃ l m0, prologue Samples.stateful = (Next l, m0)) as (l & m0 & Hpro)
    by (eexists _, _; vm_compute; reflexivity).
  destruct (synthesized_reach_the_passes Samples.stateful m0 l Halive Hpro)
    as (Hnodes & Hmcl & _ & Hsw & _).
  exists l, m0. split; [exact Hpro|]. split.
  - rewrite Hsw. exact (Hnodes 5 _ eq_refl).
  - rewrite Hmcl. rewrite <- (Nat.add_0_r (length (nodes Samples.stateful))).
    exact (Hnodes 0 _ eq_refl).
Defined.

(** X11. On a graph with live handles, when the prologue completes it has
    left the Results and the Sinks alone and has either appended one
    Parameter, the new [position_ids] (when no input carried that name), or
    left the Parameter list as it was (when an input carried it and was a
    Parameter); it has created 17 nodes in the first case and 16 in the
    second. *)
Theorem prologue_parameter_list (m m0 : Model) (l : Locals) :
  params_alive m → prologue m = (Next l, m0) →
  let n := length (nodes m) in
  (m_results m0, m_sinks m0) = (m_results m, m_sinks m)
  ∧ ((input m "position_ids" = None
      ∧ m_parameters m0 = m_parameters m ++ [n + 14]
      ∧ nodes m0 !! (n + 14)
        = Some (mkNode (v0_Parameter i64 [(-1)%Z]) [] "position_ids"
                       ["position_ids"])
      ∧ unsqueezed_position_ids l = n + 16
      ∧ length (nodes m0) = n + 17)
     ∨ (∃ p, input m "position_ids" = Some p ∧ as_Parameter m p = Some p
             ∧ m_parameters m0 = m_parameters m
             ∧ unsqueezed_position_ids l = n + 15
             ∧ length (nodes m0) = n + 16)).
Proof.
  intros Halive Hpro n.
  destruct (prologue_Next_inv m m0 l Halive Hpro) as (i & Hin & Hi & Hlt & Hu).
  set (mb := with_nodes m (store_at_line_69 m i)) in *.
  assert (preserved (nodes m) (nodes mb)) as Hpres
    by apply preserved_store_at_line_69.
  assert (length (nodes mb) = n + 14) as Hlen by apply length_store_at_line_69.
  destruct (input mb "position_ids") as [q|] eqn:Hq.
  - destruct (as_Parameter_cases mb q) as [Hq'|Hq'].
    + rewrite (adapt_position_ids_parameter mb q Hq Hq') in Hu.
      inversion Hu as [[Hv Hm0]]. split; [done|]. right. exists q.
      rewrite (preserved_input m mb _ Hpres eq_refl Halive) in Hq.
      assert (q < length (nodes m)) as Hqlt by by eapply input_alive.
      destruct (preserved_get_names m mb q Hpres Hqlt) as [_ Hq'']. rewrite Hq'' in Hq'.
      split; [done|]. split; [done|]. split; [done|].
      subst mb. simpl in *.
      split; [lia|].
      rewrite length_redirect, length_app, length_alter. simpl. lia.
    + by rewrite (adapt_position_ids_other mb q Hq Hq') in Hu.
  - rewrite (adapt_position_ids_absent mb Hq) in Hu.
    inversion Hu as [[Hv Hm0]]. split; [done|]. left.
    rewrite (preserved_input m mb _ Hpres eq_refl Halive) in Hq.
    split; [done|]. subst mb. simpl in *. rewrite Hlen.
    split; [done|]. split.
    { rewrite lookup_redirect_ne, lookup_app_r by lia.
      by rewrite Hlen, Nat.sub_diag. }
    split; [lia|].
    rewrite length_redirect, length_app. simpl. lia.
Qed.

Lemma prologue_parameter_list_witness :
  params_alive Samples.stateful
  ∧ input Samples.stateful "position_ids" = None
  ∧ ∃ l m0, prologue Samples.stateful = (Next l, m0)
            ∧ m_parameters m0 = [0; 1; 2; 3; 25]
            ∧ length (nodes m0) = 28.
Proof.
  assert (params_alive Samples.stateful) as Halive.
  { unfold params_alive. apply (bool_decide_unpack _). vm_compute. exact I. }
  assert (input Samples.stateful "position_ids" = None) as Hno
    by (vm_compute; reflexivity).
  split; [exact Halive|]. split; [exact Hno|].
  assert (∃ l m0, prologue Samples.stateful = (Next l, m0)) as (l & m0 & Hpro)
    by (eexists _, _; vm_compute; reflexivity).
  destruct (prologue_parameter_list Samples.stateful m0 l Halive Hpro)
    as (_ & [(_ & Hps & _ & _ & Hlen)|(p & Hp & _)]).
  - exists l, m0. split; [exact Hpro|]. split; [exact Hps|exact Hlen].
  - rewrite Hno in Hp. discriminate Hp.
Defined.

(** X12. On a graph with live handles the prologue (lines 31-79) runs to the
    pass manager exactly when [input_ids] is bound to a Parameter and
    [position_ids], if bound at all, is bound to a Parameter; the run then
    never ends in a null dereference. *)
Theorem prologue_completes_iff (sub : SubPasses) (m : Model) :
  params_alive m →
  ((∃ l m0, prologue m = (Next l, m0))
   ↔ (∃ i, input m "input_ids" = Some i ∧ as_Parameter m i = Some i)
     ∧ (∀ o, input m "position_ids" = Some o → as_Parameter m o = Some o))
  ∧ ((∃ l m0, prologue m = (Next l, m0)) → (run_on_model sub m).1 ≠ NullDeref).
Proof.
  intros Halive. split; [split|].
  - intros (l & m0 & Hpro).
    destruct (prologue_Next_inv m m0 l Halive Hpro) as (i & Hin & Hi & Hlt & Hu).
    split; [by exists i|]. intros o Ho.
    set (mb := with_nodes m (store_at_line_69 m i)) in *.
    assert (preserved (nodes m) (nodes mb)) as Hpres
      by apply preserved_store_at_line_69.
    destruct (as_Parameter_cases m o) as [Hp|Hp]; [done|].
    assert (o < length (nodes m)) as Holt by by eapply input_alive.
    destruct (preserved_get_names m mb o Hpres Holt) as [_ Hp']. rewrite <- Hp' in Hp.
    rewrite <- (preserved_input m mb _ Hpres eq_refl Halive) in Ho.
    by rewrite (adapt_position_ids_other mb o Ho Hp) in Hu.
  - intros ((i & Hin & Hi) & Hpos).
    rewrite (prologue_eq m i Halive Hin Hi).
    set (mb := with_nodes m (store_at_line_69 m i)).
    assert (preserved (nodes m) (nodes mb)) as Hpres
      by apply preserved_store_at_line_69.
    destruct (adapt_position_ids_cases mb)
      as [(_ & u & m' & Hu)|[(p & _ & _ & u & m' & Hu)|(o & Ho & Hno & _)]].
    + rewrite (bind_Next _ _ _ _ _ Hu). eauto.
    + rewrite (bind_Next _ _ _ _ _ Hu). eauto.
    + rewrite (preserved_input m mb _ Hpres eq_refl Halive) in Ho.
      assert (o < length (nodes m)) as Holt by by eapply input_alive.
      destruct (preserved_get_names m mb o Hpres Holt) as [_ Hp']. rewrite Hp' in Hno.
      rewrite (Hpos o Ho) in Hno. done.
  - intros (l & m0 & Hpro) Hnull.
    destruct (run_on_model_cases sub m)
      as [(s & m1 & Hp & Hs & Hrun)
         |[(l' & ctx & m1 & o & _ & _ & _ & Hrun)
          |(l' & ctx & m1 & m1' & _ & _ & _ & Hrun)]];
      rewrite Hrun in Hnull.
    + rewrite Hpro in Hp. inversion Hp; subst s. done.
    + done.
    + destruct (from_attention_mask_cases l' ctx m1')
        as [(_ & Hf)|[(o & _ & _ & Hf)|(p & _ & _ & Hf)]];
        by rewrite Hf in Hnull.
Qed.

Lemma prologue_completes_iff_witness :
  params_alive Samples.with_position_ids
  ∧ (∃ l m0, prologue Samples.with_position_ids = (Next l, m0))
  ∧ (run_on_model Samples.passes Samples.with_position_ids).1 ≠ NullDeref.
Proof.
  assert (params_alive Samples.with_position_ids) as Halive.
  { unfold params_alive. apply (bool_decide_unpack _). vm_compute. exact I. }
  split; [exact Halive|].
  destruct (prologue_completes_iff Samples.passes Samples.with_position_ids Halive)
    as [Hiff Hrun].
  assert (∃ l m0, prologue Samples.with_position_ids = (Next l, m0)) as Hex.
  { apply Hiff. split.
    - exists 0. split; vm_compute; reflexivity.
    - intros o Ho.
      assert (input Samples.with_position_ids "position_ids" = Some 2) as H2
        by (vm_compute; reflexivity).
      rewrite H2 in Ho. inversion Ho; subst o. vm_compute; reflexivity. }
  split; [exact Hex|]. exact (Hrun Hex).
Defined.
